(** * webDAV_downloader.py: a shallow embedding of [WebDAVDownloader]

    The Python class mirrors a remote WebDAV tree onto local storage.  This
    development embeds its methods as Rocq functions and settles the
    properties stated about them.

    Modelling conventions.
    - A Python [str] is a [list ascii] (8-bit characters; every character
      the code treats specially is ASCII).  File contents are [list byte].
    - The file system is a finite map from normalised paths to nodes.  Paths
      are normalised the way [pathlib.PurePosixPath] does it: split on ['/'],
      empty and ["."] components dropped; [".."] and symbolic links are not
      interpreted, and one or many leading slashes mean "absolute".
    - Effects are threaded through a state-and-exception monad.  The state
      holds the file system and a trace: one entry for every request, body
      chunk, log record and file-system call, each with the file system as
      it is right after the entry.
    - The remote server, the process environment and the few OS facts the
      code can observe are read from a [world] record.
    - A thread pool runs its tasks one after the other, each at the moment
      it is submitted, on the shared file system; the futures complete in
      the order of submission. *)

From Stdlib Require Import ZArith Lia Ascii String List.
From Stdlib.Strings Require Import Byte.
From stdpp Require Import base option list gmap strings.

Set Default Proof Using "Type".
Open Scope Z_scope.

(** ** Strings *)

Abbreviation str := (list ascii).

Definition lit (s : string) : str := list_ascii_of_string s.

Definition LF : ascii := "010"%char.

Definition ascii_in (c : ascii) (cs : str) : bool :=
  bool_decide (c ∈ cs).

Definition is_digit (c : ascii) : bool :=
  let n := nat_of_ascii c in (Nat.leb 48 n && Nat.leb n 57)%bool.

Definition is_ascii_letter (c : ascii) : bool :=
  let n := nat_of_ascii c in
  ((Nat.leb 65 n && Nat.leb n 90) || (Nat.leb 97 n && Nat.leb n 122))%bool.

(** [s.startswith(p)] *)
Fixpoint startswith (p s : str) : bool :=
  match p, s with
  | [], _ => true
  | a :: p', b :: s' => bool_decide (a = b) && startswith p' s'
  | _ :: _, [] => false
  end.

(** [s.endswith(p)] *)
Definition endswith (p s : str) : bool :=
  startswith (rev p) (rev s).

(** ** [int(str)]

    Python's integer literal parser for base 10, on 8-bit input: surrounding
    white space is stripped (the ASCII white space of C, NEL and the
    no-break space), one sign is allowed, and the digits may be separated
    by single underscores.  [None] stands for [ValueError].  The
    interpreter's limit on the number of digits is not modelled. *)

Definition is_space (c : ascii) : bool :=
  let n := nat_of_ascii c in
  ((Nat.leb 9 n && Nat.leb n 13) || Nat.eqb n 32 ||
   Nat.eqb n 133 || Nat.eqb n 160)%bool.

Fixpoint lstrip (s : str) : str :=
  match s with
  | c :: s' => if is_space c then lstrip s' else s
  | [] => []
  end.

Definition strip (s : str) : str := rev (lstrip (rev (lstrip s))).

Definition digit_val (c : ascii) : Z := Z.of_nat (nat_of_ascii c) - 48.

(** [digits acc prev_digit s]: the value of a digit string, [prev_digit]
    telling whether an underscore is allowed at this point. *)
Fixpoint digits (acc : Z) (prev_digit : bool) (s : str) : option Z :=
  match s with
  | [] => if prev_digit then Some acc else None
  | c :: s' =>
      if is_digit c then digits (10 * acc + digit_val c) true s'
      else if bool_decide (c = "_"%char) && prev_digit then digits acc false s'
      else None
  end.

Definition py_int (s : str) : option Z :=
  match strip s with
  | c :: s' =>
      if bool_decide (c = "-"%char) then Z.opp <$> digits 0 false s'
      else if bool_decide (c = "+"%char) then digits 0 false s'
      else digits 0 false (c :: s')
  | [] => None
  end.

(** ** Regular expressions: the fragment of [re] that [filter_string] uses *)

Module Re.

(** [re.escape]: a backslash before every character of
    [()[]{}?*+-|^$\.&~# \t\n\r\v\f]. *)
Definition special_chars : str :=
  lit "()[]{}?*+-|^$\.&~# " ++
  ["009"; "010"; "013"; "011"; "012"]%char.

Definition escape_char (c : ascii) : str :=
  if ascii_in c special_chars then ["\"%char; c] else [c].

Definition escape (s : str) : str := concat (map escape_char s).

(** One pattern position: a literal character or ['.'], which matches any
    character but the line feed (no [DOTALL] flag is passed). *)
Inductive atom := ALit (c : ascii) | ADot.

(** An atom, alone or under a greedy ['*']. *)
Inductive item := One (a : atom) | Star (a : atom).

Definition regex := list item.

(** Characters with a meaning of their own in a pattern
    ([SPECIAL_CHARS] of the pattern parser). *)
Definition pattern_chars : str := lit ".\[{()*+?^$|".

(** The pattern parser, on the fragment "literals, escaped characters,
    ['.'] and a greedy ['*'] after any of them".  [None] stands for
    [re.error] and for every pattern outside the fragment: the theorem
    [compile_filter_pattern] shows that the patterns of [filter_string]
    are always inside. *)
Definition parse_atom (p : str) : option (atom * str) :=
  match p with
  | [] => None
  | c :: p' =>
      if bool_decide (c = "\"%char) then
        match p' with
        | e :: p'' =>
            if is_ascii_letter e || is_digit e then None
            else Some (ALit e, p'')
        | [] => None
        end
      else if bool_decide (c = "."%char) then Some (ADot, p')
      else if ascii_in c pattern_chars then None
      else Some (ALit c, p')
  end.

Fixpoint parse (fuel : nat) (p : str) : option regex :=
  match fuel with
  | O => None
  | S fuel' =>
      match p with
      | [] => Some []
      | _ =>
          '(a, rest) ← parse_atom p;
          match rest with
          | q :: rest' =>
              if bool_decide (q = "*"%char)
              then (Star a ::.) <$> parse fuel' rest'
              else (One a ::.) <$> parse fuel' rest
          | [] => Some [One a]
          end
      end
  end.

Definition compile (p : str) : option regex := parse (S (length p)) p.

Definition atom_matches (a : atom) (c : ascii) : bool :=
  match a with
  | ALit x => bool_decide (x = c)
  | ADot => negb (bool_decide (c = LF))
  end.

(** Greedy repetition with backtracking: take as many characters as the
    atom allows, give them back one by one until the rest [k] matches. *)
Fixpoint match_star (a : atom) (k : str → option str) (s : str) : option str :=
  match s with
  | c :: s' =>
      if atom_matches a c then
        match match_star a k s' with
        | Some m => Some (c :: m)
        | None => k s
        end
      else k s
  | [] => k []
  end.

(** [match_here r s]: the text matched by [r] at the start of [s]. *)
Fixpoint match_here (r : regex) (s : str) : option str :=
  match r with
  | [] => Some []
  | One a :: r' =>
      match s with
      | c :: s' => if atom_matches a c then (c ::.) <$> match_here r' s' else None
      | [] => None
      end
  | Star a :: r' => match_star a (match_here r') s
  end.

(** [re.search(r, s)] followed by [.group(0)]: the leftmost match. *)
Fixpoint search (r : regex) (s : str) : option str :=
  match match_here r s with
  | Some m => Some m
  | None => match s with [] => None | _ :: s' => search r s' end
  end.

End Re.

(** ** Paths

    [pathlib.PurePosixPath] and the kernel's path lookup, on the fragment
    without [".."] and symbolic links. *)

Definition is_slash (c : ascii) : bool := bool_decide (c = "/"%char).

(** The scanner behind [s.split('/')]: the segments already closed and the
    segment being read. *)
Definition seg_step (st : list str * str) (c : ascii) : list str * str :=
  if is_slash c then (st.1 ++ [st.2], []) else (st.1, st.2 ++ [c]).

Definition seg_scan (st : list str * str) (s : str) : list str * str :=
  fold_left seg_step s st.

Definition split_slash (s : str) : list str :=
  let st := seg_scan ([], []) s in st.1 ++ [st.2].

(** A component that survives normalisation. *)
Definition proper_seg (seg : str) : bool :=
  negb (bool_decide (seg = [])) && negb (bool_decide (seg = ["."%char])).

Definition parts_of (s : str) : list str := filter (λ seg, proper_seg seg) (split_slash s).

(** A normalised path: absolute or relative, and its components. *)
Abbreviation path := (bool * list str)%type.

(** [Path(s)] *)
Definition Path (s : str) : path := (startswith ["/"%char] s, parts_of s).

(** [p.parent] *)
Definition parent (p : path) : path := (p.1, removelast p.2).

(** [p.name] *)
Definition name (p : path) : str := default [] (last p.2).

(** [p / s] for a string [s] *)
Definition joinpath (p : path) (s : str) : path :=
  if startswith ["/"%char] s then Path s else (p.1, p.2 ++ parts_of s).

Fixpoint join_slash (l : list str) : str :=
  match l with
  | [] => []
  | [x] => x
  | x :: l' => x ++ "/"%char :: join_slash l'
  end.

(** [str(p)] *)
Definition path_str (p : path) : str :=
  match p with
  | (true, l) => "/"%char :: join_slash l
  | (false, []) => ["."%char]
  | (false, l) => join_slash l
  end.

(** ** The file system *)

Inductive node :=
  | File (data : list byte)
  | Dir.

Abbreviation fsT := (gmap path node).

(** The root and the working directory always exist. *)
Definition is_root (p : path) : bool := bool_decide (p.2 = []).

Definition node_at (fs : fsT) (p : path) : option node :=
  if is_root p then Some Dir else fs !! p.

Definition is_dir (fs : fsT) (p : path) : bool :=
  match node_at fs p with Some Dir => true | _ => false end.

Definition is_file (fs : fsT) (p : path) : bool :=
  match node_at fs p with Some (File _) => true | _ => false end.

Definition exists_ (fs : fsT) (p : path) : bool :=
  match node_at fs p with Some _ => true | None => false end.

(** The proper ancestors of a path and the path itself, the shortest first. *)
Definition chain (p : path) : list path :=
  map (λ n, (p.1, take n p.2)) (seq 1 (length p.2)).

(** Every node sits in a directory. *)
Definition fs_wf (fs : fsT) : Prop :=
  ∀ p n, node_at fs p = Some n → is_dir fs (parent p) = true.

(** ** Exceptions, log records and the trace *)

Inductive fs_op :=
  OpMkdir | OpStat | OpOpen | OpWrite | OpRename | OpRemove | OpExists | OpAppend.

Inductive http_method := GET | PROPFIND.

(** The Python exceptions that the modelled paths can raise. *)
Inductive exn :=
  | RequestException (cause : str)      (* requests.exceptions.RequestException: transport failure, retries exhausted *)
  | HTTPError (status : Z)              (* raised by [raise_for_status]; a RequestException *)
  | ParseError                          (* xml.etree.ElementTree.ParseError *)
  | ValueError (msg : str)
  | TypeError
  | re_error
  | OverflowError
  | OSError (op : fs_op) (p : path)     (* FileNotFoundError, IsADirectoryError, ... of the call [op] on [p] *)
  | RecursionError.

(** [isinstance(e, requests.exceptions.RequestException)] *)
Definition is_request_exception (e : exn) : bool :=
  match e with RequestException _ | HTTPError _ => true | _ => false end.

Inductive level := INFO | ERROR.

(** The log records of the class, with the values their messages embed. *)
Inductive log_msg :=
  | MsgInit (node_name : str) (cpus : Z)
  | MsgListFailed (remote_folder : str) (e : exn)
  | MsgRegexError (e : exn)
  | MsgAlreadyComplete (local_path : str) (file_size : Z)
  | MsgStarting (local_path : str) (file_size : Z)
  | MsgProgress (local_path : str) (downloaded file_size : Z)
  | MsgCompleted (local_path : str) (file_size : Z)
  | MsgDownloadFailed (remote_path : str) (e : exn)
  | MsgTaskError (local_path : str) (e : exn)
  | MsgFailedDownloads (count : nat) (paths : list str)
  | MsgFolderError (e : exn).

Inductive event :=
  | EvRequest (m : http_method) (url : str)
  | EvRecv (chunk : list byte)
  | EvLog (l : level) (msg : log_msg)
  | EvFs (op : fs_op) (p : path).

Record state := State {
  st_fs : fsT;
  st_trace : list (event * fsT)
}.

(** ** The world: server, environment, OS facts *)

Record response := Response {
  status_code : Z;
  content_length : option str;          (* the Content-Length header *)
  hrefs : option (list (option str));   (* the text of the {DAV:}href elements of the body; None: the body is not XML *)
  chunks : list (list byte);            (* what [iter_content] yields *)
  stream_error : option exn             (* raised by [iter_content] after the chunks *)
}.

Inductive reply :=
  | NoReply (cause : str)               (* the session gave up: the request raises a RequestException *)
  | Reply (r : response).

Record world := World {
  serve : http_method → str → reply;
  dir_st_size : Z;                      (* [st_size] of a directory *)
  environ : str → option str;           (* os.environ.get *)
  cpu_count : option Z;                 (* os.cpu_count() *)
  log_file_ok : bool                    (* whether logging.FileHandler can open the log file *)
}.

(** ** The monad: state and exceptions *)

Inductive result (A : Type) :=
  | Ret (a : A)
  | Raise (e : exn).
Arguments Ret {A} a.
Arguments Raise {A} e.

Definition M (A : Type) : Type := state → result A * state.

Definition ret {A} (a : A) : M A := λ st, (Ret a, st).
Definition raise {A} (e : exn) : M A := λ st, (Raise e, st).
Definition lift {A} (r : result A) : M A := λ st, (r, st).
Definition bind {A B} (m : M A) (k : A → M B) : M B :=
  λ st, match m st with
        | (Ret a, st') => k a st'
        | (Raise e, st') => (Raise e, st')
        end.

(** [try: m  except <class>: h] for the classes selected by [catches];
    other exceptions pass. *)
Definition try_except {A} (m : M A) (catches : exn → bool) (h : exn → M A) : M A :=
  λ st, match m st with
        | (Raise e, st') => if catches e then h e st' else (Raise e, st')
        | r => r
        end.

Declare Scope py_scope.
Delimit Scope py_scope with py.
Notation "x <- m ;; k" := (bind m (λ x, k))
  (at level 20, m at level 99, k at level 200, only parsing) : py_scope.
Notation "' pat <- m ;; k" := (bind m (λ x, match x with pat => k end))
  (at level 20, pat pattern, m at level 99, k at level 200, only parsing) : py_scope.
Notation "m ;; k" := (bind m (λ _, k))
  (at level 100, k at level 200, right associativity, only parsing) : py_scope.
Open Scope py_scope.

Definition emit (e : event) : M unit :=
  λ st, (Ret (), State (st_fs st) (st_trace st ++ [(e, st_fs st)])).

Definition log (l : level) (msg : log_msg) : M unit := emit (EvLog l msg).

Definition get_fs : M fsT := λ st, (Ret (st_fs st), st).

(** A file-system call: its effect on the map, then its trace entry. *)
Definition fs_call {A} (op : fs_op) (p : path) (f : fsT → result A * fsT) : M A :=
  λ st, let '(r, fs') := f (st_fs st) in
        (r, State fs' (st_trace st ++ [(EvFs op p, fs')])).

(** ** File-system calls *)

(** [Path.mkdir(parents=True, exist_ok=True)]: the missing directories of
    the chain are created, the shortest first; a file on the chain makes
    the call fail. *)
Fixpoint mkdir_chain (fs : fsT) (ps : list path) : result unit * fsT :=
  match ps with
  | [] => (Ret (), fs)
  | q :: ps' =>
      match fs !! q with
      | Some (File _) => (Raise (OSError OpMkdir q), fs)
      | Some Dir => mkdir_chain fs ps'
      | None => mkdir_chain (<[q := Dir]> fs) ps'
      end
  end.

Definition mkdir_parents (p : path) : M unit :=
  fs_call OpMkdir p (λ fs, mkdir_chain fs (chain p)).

(** [os.stat(p).st_size] *)
Definition st_size (w : world) (fs : fsT) (p : path) : option Z :=
  match node_at fs p with
  | Some (File d) => Some (Z.of_nat (length d))
  | Some Dir => Some (dir_st_size w)
  | None => None
  end.

(** [p.exists()], [os.path.exists(p)] *)
Definition path_exists (p : path) : M bool :=
  fs_call OpExists p (λ fs, (Ret (exists_ fs p), fs)).

(** [p.stat().st_size], [os.path.getsize(p)] *)
Definition stat_size (w : world) (p : path) : M Z :=
  fs_call OpStat p (λ fs,
    match st_size w fs p with
    | Some n => (Ret n, fs)
    | None => (Raise (OSError OpStat p), fs)
    end).

(** [open(p, "wb")]: the file is created or truncated. *)
Definition open_wb (p : path) : M unit :=
  fs_call OpOpen p (λ fs,
    if is_dir fs p || negb (is_dir fs (parent p))
    then (Raise (OSError OpOpen p), fs)
    else (Ret (), <[p := File []]> fs)).

(** [open(p, "a")]: the file is created when missing, kept otherwise. *)
Definition open_append (p : path) : M unit :=
  fs_call OpAppend p (λ fs,
    match node_at fs p with
    | Some Dir => (Raise (OSError OpAppend p), fs)
    | Some (File _) => (Ret (), fs)
    | None =>
        if is_dir fs (parent p) then (Ret (), <[p := File []]> fs)
        else (Raise (OSError OpAppend p), fs)
    end).

(** [file.write(data)] on the file opened at [p]. *)
Definition write (p : path) (data : list byte) : M unit :=
  fs_call OpWrite p (λ fs,
    match node_at fs p with
    | Some (File d) => (Ret (), <[p := File (d ++ data)]> fs)
    | _ => (Raise (OSError OpWrite p), fs)
    end).

(** [os.rename(src, dst)] for a regular file [src]: [dst] is replaced
    atomically unless it is a directory.  (The code only renames the file
    it has just written; a directory source is reported as an error.) *)
Definition rename (src dst : path) : M unit :=
  fs_call OpRename dst (λ fs,
    match node_at fs src with
    | Some (File d) =>
        if is_dir fs dst || negb (is_dir fs (parent dst))
        then (Raise (OSError OpRename dst), fs)
        else (Ret (), <[dst := File d]> (delete src fs))
    | _ => (Raise (OSError OpRename src), fs)
    end).

(** [os.remove(p)]: only a regular file can be removed. *)
Definition remove (p : path) : M unit :=
  fs_call OpRemove p (λ fs,
    match node_at fs p with
    | Some (File _) => (Ret (), delete p fs)
    | _ => (Raise (OSError OpRemove p), fs)
    end).

(** ** HTTP *)

(** [session.request(method, url, ...)], retries included: the reply is
    what the session ends up with. *)
Definition request (w : world) (m : http_method) (url : str) : M response :=
  emit (EvRequest m url);;
  match serve w m url with
  | NoReply cause => raise (RequestException cause)
  | Reply r => ret r
  end.

(** [response.raise_for_status()] *)
Definition raise_for_status (r : response) : M unit :=
  if (400 <=? status_code r) && (status_code r <? 600)
  then raise (HTTPError (status_code r))
  else ret ().

(** [file_size / (1024**3)]: the true division of integers raises
    [OverflowError] when the quotient rounds to no finite double, that is
    from [2^1024 - 2^970] on. *)
Definition gb_overflows (file_size : Z) : bool :=
  2 ^ 1054 - 2 ^ 1000 <=? Z.abs file_size.

(** [file_size = int(response.headers.get('content-length', 0))] and
    [file_size_gb = file_size / (1024**3)]: the expected size, or the
    exception of one of the two lines.  The message of the [ValueError] of
    [int] is kept without the literal it quotes. *)
Definition expected_size (r : response) : result Z :=
  match content_length r with
  | Some v =>
      match py_int v with
      | Some n => if gb_overflows n then Raise OverflowError else Ret n
      | None => Raise (ValueError (lit "invalid literal for int() with base 10"))
      end
  | None => Ret 0
  end.

(** [str.encode()] on 8-bit characters *)
Definition encode (s : str) : list byte := map byte_of_ascii s.

(** ** The class *)

Record downloader := Downloader {
  use_slurm : bool;
  slurm_cpus : Z;
  slurm_node : str;
  job_id : str;
  base_url : str;
  auth : str * str
}.

(** [x or y] on optional strings: [x] when it is truthy, else [y]. *)
Definition truthy (x : option str) : bool :=
  match x with Some (_ :: _) => true | _ => false end.

Definition py_or (x y : option str) : option str :=
  if truthy x then x else y.

(** [s.rstrip('/')] *)
Fixpoint lstrip_slash (s : str) : str :=
  match s with
  | c :: s' => if is_slash c then lstrip_slash s' else s
  | [] => []
  end.

Definition rstrip_slash (s : str) : str := rev (lstrip_slash (rev s)).

(** [x or y] on optional integers: [None] and [0] are falsy. *)
Definition py_or_int (x y : option Z) : option Z :=
  match x with
  | Some n => if n =? 0 then y else x
  | None => y
  end.

(** [__init__].  The logging handlers and the HTTP session are external
    collaborators: of [_setup_logging] only the failure to open the log
    file is kept, [_create_session] has no modelled failure. *)
Definition init (w : world) (url username password : option str)
    (num_cpus : option Z) (use_slurm : bool) : M downloader :=
  '(cpus, node_name, job) <-
    (if use_slurm then
       cpus <- match environ w (lit "SLURM_CPUS_PER_TASK") with
               | None => ret 1
               | Some v =>
                   match py_int v with
                   | Some n => ret n
                   | None => raise (ValueError (lit "invalid literal for int() with base 10"))
                   end
               end;;
       ret (cpus,
            default (lit "local") (environ w (lit "SLURM_NODENAME")),
            default (lit "no_job") (environ w (lit "SLURM_JOB_ID")))
     else
       let cpus := default 1 (py_or_int (py_or_int num_cpus (cpu_count w)) (Some 1)) in
       ret (cpus, lit "local", lit "no_job"));;
  let base_url := py_or url (environ w (lit "WEBDAV_URL")) in
  let username := py_or username (environ w (lit "WEBDAV_USERNAME")) in
  let password := py_or password (environ w (lit "WEBDAV_PASSWORD")) in
  match base_url, username, password with
  | Some (b :: bs), Some (u :: us), Some (p :: ps) =>
      let log_file :=
        lit "download_" ++ (if use_slurm then lit "slurm" else lit "local") ++
        lit "_node_" ++ node_name ++ lit "_job_" ++ job ++ lit ".log" in
      (if log_file_ok w then ret () else raise (OSError OpAppend (Path log_file)));;
      log INFO (MsgInit node_name cpus);;
      ret (Downloader use_slurm cpus node_name job (rstrip_slash (b :: bs)) (u :: us, p :: ps))
  | _, _, _ =>
      raise (ValueError (lit "Missing required credentials. Provide either direct parameters or environment variables: WEBDAV_URL, WEBDAV_USERNAME, WEBDAV_PASSWORD"))
  end.

Section Methods.

Context (w : world) (self : downloader).

(** [list_directory] *)
Definition list_directory (remote_folder : str) : M (list (option str)) :=
  try_except
    (response <- request w PROPFIND (base_url self ++ remote_folder);;
     raise_for_status response;;
     if status_code response =? 207 then
       match hrefs response with
       | Some l => ret l
       | None => raise ParseError
       end
     else ret [])
    is_request_exception
    (λ e, log ERROR (MsgListFailed remote_folder e);; raise e).

(** [filter_string].  The entries come from [elem.text], which is [None]
    for an empty element: [re.search] raises [TypeError] on it. *)
Definition filter_pattern (base_string : str) : str :=
  "/"%char :: Re.escape base_string ++ lit ".*".

Definition filter_string (base_string : str) (input_string : option str)
    : M (option str) :=
  try_except
    (match Re.compile (filter_pattern base_string) with
     | None => raise re_error
     | Some r =>
         match input_string with
         | None => raise TypeError
         | Some s => ret (Re.search r s)
         end
     end)
    (λ e, match e with re_error => true | _ => false end)
    (λ e, log ERROR (MsgRegexError e);; raise e).

(** The loop over [response.iter_content(chunk_size=8192)]. *)
Fixpoint write_chunks (local_path : str) (temp : path) (file_size downloaded : Z)
    (cs : list (list byte)) : M Z :=
  match cs with
  | [] => ret downloaded
  | chunk :: cs' =>
      emit (EvRecv chunk);;
      match chunk with
      | [] => write_chunks local_path temp file_size downloaded cs'
      | _ =>
          write temp chunk;;
          let downloaded := downloaded + Z.of_nat (length chunk) in
          (if (file_size >? 100 * 1024 * 1024) &&
              (downloaded mod (50 * 1024 * 1024) =? 0)
           then log INFO (MsgProgress local_path downloaded file_size)
           else ret ());;
          write_chunks local_path temp file_size downloaded cs'
      end
  end.

Definition temp_path_of (local_path : str) : str :=
  local_path ++ "."%char :: job_id self ++ lit ".temp".

(** [download_file]: the [try] block.  Of the float conversions only the
    one that can raise is modelled, in [expected_size]. *)
Definition download_file_try (remote_path local_path : str) : M bool :=
  let temp_path := temp_path_of local_path in
  response <- request w GET (base_url self ++ remote_path);;
  raise_for_status response;;
  file_size <- lift (expected_size response);;
  let local_path_obj := Path local_path in
  mkdir_parents (parent local_path_obj);;
  present <- path_exists local_path_obj;;
  complete <-
    (if present
     then size <- stat_size w local_path_obj;; ret (size =? file_size)
     else ret false);;
  if complete then
    log INFO (MsgAlreadyComplete local_path file_size);;
    ret true
  else
    log INFO (MsgStarting local_path file_size);;
    open_wb (Path temp_path);;
    write_chunks local_path (Path temp_path) file_size 0 (chunks response);;
    match stream_error response with Some e => raise e | None => ret () end;;
    size <- stat_size w (Path temp_path);;
    if negb (size =? file_size)
    then raise (ValueError (lit "Downloaded file size mismatch for " ++ local_path))
    else
      rename (Path temp_path) (Path local_path);;
      log INFO (MsgCompleted local_path file_size);;
      ret true.

(** [download_file]: the [except Exception as e] block. *)
Definition download_file_except (remote_path local_path : str) (e : exn) : M bool :=
  let temp_path := temp_path_of local_path in
  log ERROR (MsgDownloadFailed remote_path e);;
  present <- path_exists (Path temp_path);;
  (if present then remove (Path temp_path) else ret ());;
  ret false.

Definition download_file (remote_path local_path : str) : M bool :=
  try_except
    (download_file_try remote_path local_path)
    (λ _, true)
    (download_file_except remote_path local_path).

(** [executor.submit(task)]: the task runs, its outcome (a value or an
    exception) is kept in the future. *)
Definition submit {A} (task : M A) : M (result A) :=
  λ st, let '(r, st') := task st in (Ret r, st').

Definition ledger_path : path :=
  Path (lit "failed_downloads_" ++ job_id self ++ lit ".txt").

Section Folder.

(** The recursive call of [download_folder]. *)
Variable download_folder_rec : str → str → str → M unit.

(** The loop over [items]; [futures] is [future_to_path]. *)
Fixpoint dispatch (local_folder base_dir : str) (items : list (option str))
    (futures : list (result bool * str)) : M (list (result bool * str)) :=
  match items with
  | [] => ret futures
  | item :: items' =>
      item <- filter_string base_dir item;;
      match item with
      | None | Some [] => dispatch local_folder base_dir items' futures
      | Some item =>
          if endswith ["/"%char] item then
            download_folder_rec item
              (path_str (joinpath (Path local_folder) (name (Path (removelast item)))))
              base_dir;;
            dispatch local_folder base_dir items' futures
          else
            let local_path := path_str (joinpath (Path local_folder) (name (Path item))) in
            future <- submit (download_file item local_path);;
            dispatch local_folder base_dir items' (futures ++ [(future, local_path)])
      end
  end.

(** The loop over [as_completed(future_to_path)]. *)
Fixpoint join (futures : list (result bool * str)) (failed_downloads : list str)
    : M (list str) :=
  match futures with
  | [] => ret failed_downloads
  | (future, local_path) :: futures' =>
      match future with
      | Ret true => join futures' failed_downloads
      | Ret false => join futures' (failed_downloads ++ [local_path])
      | Raise e =>
          log ERROR (MsgTaskError local_path e);;
          join futures' (failed_downloads ++ [local_path])
      end
  end.

(** [ThreadPoolExecutor(max_workers=self.slurm_cpus)] *)
Definition thread_pool : M unit :=
  if slurm_cpus self <=? 0
  then raise (ValueError (lit "max_workers must be greater than 0"))
  else ret ().

Fixpoint write_lines (p : path) (lines : list str) : M unit :=
  match lines with
  | [] => ret ()
  | l :: lines' => write p (encode (l ++ [LF]));; write_lines p lines'
  end.

Definition download_folder_body (remote_folder local_folder base_dir : str) : M unit :=
  try_except
    (mkdir_parents (Path local_folder);;
     items <- list_directory remote_folder;;
     match items with
     | [] => ret ()
     | _ :: items =>
         thread_pool;;
         futures <- dispatch local_folder base_dir items [];;
         failed_downloads <- join futures [];;
         match failed_downloads with
         | [] => ret ()
         | _ =>
             open_append ledger_path;;
             write_lines ledger_path failed_downloads;;
             log ERROR (MsgFailedDownloads (length failed_downloads) failed_downloads)
         end
     end)
    (λ _, true)
    (λ e, log ERROR (MsgFolderError e);; raise e).

End Folder.

(** [download_folder], the depth of the recursion bounded by [depth] as
    it is by the interpreter's recursion limit. *)
Fixpoint download_folder (depth : nat) (remote_folder local_folder base_dir : str)
    : M unit :=
  match depth with
  | O => raise RecursionError
  | S depth' => download_folder_body (download_folder depth') remote_folder local_folder base_dir
  end.

End Methods.

(** Running a computation from a file system with an empty trace. *)
Definition run {A} (m : M A) (fs : fsT) : result A * state := m (State fs []).

(** ** The path filter, stated on strings *)

Module Spec.

(** The suffix of [hay] that starts at the first occurrence of [needle]. *)
Fixpoint suffix_from_first (needle hay : str) : option str :=
  if startswith needle hay then Some hay
  else match hay with
       | [] => None
       | _ :: hay' => suffix_from_first needle hay'
       end.

(** The text up to the first line feed. *)
Fixpoint line_of (s : str) : str :=
  match s with
  | [] => []
  | c :: s' => if bool_decide (c = LF) then [] else c :: line_of s'
  end.

(** From the first occurrence of [needle] to the end of its line. *)
Definition line_from_first (needle hay : str) : option str :=
  (λ suf, needle ++ line_of (drop (length needle) suf)) <$> suffix_from_first needle hay.

End Spec.

(** ** Definitions used in the statements and proofs *)

(** The pattern of [filter_string] once compiled: literal characters. *)
Definition lits (s : str) : Re.regex := map (λ c, Re.One (Re.ALit c)) s.

(** The state after one more trace entry. *)
Definition add (st : state) (e : event) : state :=
  State (st_fs st) (st_trace st ++ [(e, st_fs st)]).

(** Trace entries that share one file system. *)
Definition snaps (fs : fsT) (evs : list event) : list (event * fsT) :=
  map (λ e, (e, fs)) evs.

(** The events of the chunk loop. *)
Definition loop_event (temp : path) (e : event) : Prop :=
  match e with
  | EvRecv _ | EvLog INFO (MsgProgress _ _ _) => True
  | EvFs OpWrite p => p = temp
  | _ => False
  end.

Section Outcomes.

Context (w : world) (self : downloader) (remote_path local_path : str).

Local Abbreviation url := (base_url self ++ remote_path).
Local Abbreviation F := (Path local_path).
Local Abbreviation T := (Path (temp_path_of self local_path)).
Local Abbreviation Pa := (parent (Path local_path)).

(** What the request yields before any file-system call: the response
    and the expected size, or the exception of the request, of
    [raise_for_status] or of [expected_size]. *)
Definition transfer_head : result (response * Z) :=
  match serve w GET url with
  | NoReply cause => Raise (RequestException cause)
  | Reply r =>
      if (400 <=? status_code r) && (status_code r <? 600)
      then Raise (HTTPError (status_code r))
      else match expected_size r with
           | Ret n => Ret (r, n)
           | Raise e => Raise e
           end
  end.

(** The events of the skip check. *)
Definition checks (fs : fsT) : list event :=
  EvFs OpExists F :: (if exists_ fs F then [EvFs OpStat F] else []).

(** The exits of the [try] block once the temporary file is open:
    [fs] is the file system before the open, [tr] the trace up to it. *)
Inductive stream_outcome (resp : response) (n : Z) (fs : fsT) (tr : list (event * fsT))
    : result bool → state → Prop :=
  | SO_stream_error tw e :
      Forall (λ x, loop_event T x.1 ∧ ∃ d, x.2 = <[T := File d]> fs) tw →
      stream_error resp = Some e →
      stream_outcome resp n fs tr (Raise e)
        (State (<[T := File (concat (chunks resp))]> fs)
               (tr ++ (EvFs OpOpen T, <[T := File []]> fs) :: tw))
  | SO_mismatch tw :
      Forall (λ x, loop_event T x.1 ∧ ∃ d, x.2 = <[T := File d]> fs) tw →
      stream_error resp = None →
      Z.of_nat (length (concat (chunks resp))) ≠ n →
      let fs3 := <[T := File (concat (chunks resp))]> fs in
      stream_outcome resp n fs tr
        (Raise (ValueError (lit "Downloaded file size mismatch for " ++ local_path)))
        (State fs3 (tr ++ (EvFs OpOpen T, <[T := File []]> fs) :: tw ++ [(EvFs OpStat T, fs3)]))
  | SO_rename_error tw :
      Forall (λ x, loop_event T x.1 ∧ ∃ d, x.2 = <[T := File d]> fs) tw →
      stream_error resp = None →
      Z.of_nat (length (concat (chunks resp))) = n →
      let fs3 := <[T := File (concat (chunks resp))]> fs in
      is_dir fs3 F || negb (is_dir fs3 Pa) = true →
      stream_outcome resp n fs tr (Raise (OSError OpRename F))
        (State fs3 (tr ++ (EvFs OpOpen T, <[T := File []]> fs) :: tw ++
                    [(EvFs OpStat T, fs3); (EvFs OpRename F, fs3)]))
  | SO_done tw :
      Forall (λ x, loop_event T x.1 ∧ ∃ d, x.2 = <[T := File d]> fs) tw →
      stream_error resp = None →
      Z.of_nat (length (concat (chunks resp))) = n →
      let fs3 := <[T := File (concat (chunks resp))]> fs in
      is_dir fs3 F || negb (is_dir fs3 Pa) = false →
      let fs4 := <[F := File (concat (chunks resp))]> (delete T fs3) in
      stream_outcome resp n fs tr (Ret true)
        (State fs4 (tr ++ (EvFs OpOpen T, <[T := File []]> fs) :: tw ++
                    [(EvFs OpStat T, fs3); (EvFs OpRename F, fs4);
                     (EvLog INFO (MsgCompleted local_path n), fs4)])).

(** The exits of the [try] block. *)
Inductive try_outcome (st0 : state) : result bool → state → Prop :=
  | TO_head e :
      transfer_head = Raise e →
      try_outcome st0 (Raise e) (add st0 (EvRequest GET url))
  | TO_mkdir resp n e fs1 :
      transfer_head = Ret (resp, n) →
      mkdir_chain (st_fs st0) (chain Pa) = (Raise e, fs1) →
      try_outcome st0 (Raise e)
        (State fs1 (st_trace (add st0 (EvRequest GET url)) ++ [(EvFs OpMkdir Pa, fs1)]))
  | TO_skip resp n fs1 :
      transfer_head = Ret (resp, n) →
      mkdir_chain (st_fs st0) (chain Pa) = (Ret (), fs1) →
      st_size w fs1 F = Some n →
      try_outcome st0 (Ret true)
        (State fs1 (st_trace (add st0 (EvRequest GET url)) ++
                    snaps fs1 [EvFs OpMkdir Pa; EvFs OpExists F; EvFs OpStat F;
                               EvLog INFO (MsgAlreadyComplete local_path n)]))
  | TO_open resp n fs1 :
      transfer_head = Ret (resp, n) →
      mkdir_chain (st_fs st0) (chain Pa) = (Ret (), fs1) →
      st_size w fs1 F ≠ Some n →
      is_dir fs1 T || negb (is_dir fs1 (parent T)) = true →
      try_outcome st0 (Raise (OSError OpOpen T))
        (State fs1 (st_trace (add st0 (EvRequest GET url)) ++
                    snaps fs1 (EvFs OpMkdir Pa :: checks fs1 ++
                               [EvLog INFO (MsgStarting local_path n); EvFs OpOpen T])))
  | TO_stream resp n fs1 r st :
      transfer_head = Ret (resp, n) →
      mkdir_chain (st_fs st0) (chain Pa) = (Ret (), fs1) →
      st_size w fs1 F ≠ Some n →
      is_dir fs1 T || negb (is_dir fs1 (parent T)) = false →
      stream_outcome resp n fs1
        (st_trace (add st0 (EvRequest GET url)) ++
         snaps fs1 (EvFs OpMkdir Pa :: checks fs1 ++ [EvLog INFO (MsgStarting local_path n)]))
        r st →
      try_outcome st0 r st.

(** The exits of [download_file]. *)
Inductive outcome (st0 : state) : result bool → state → Prop :=
  | O_done st :
      try_outcome st0 (Ret true) st →
      outcome st0 (Ret true) st
  | O_cleaned e st d :
      try_outcome st0 (Raise e) st →
      node_at (st_fs st) T = Some (File d) →
      outcome st0 (Ret false)
        (State (delete T (st_fs st))
           (st_trace st ++
            snaps (st_fs st) [EvLog ERROR (MsgDownloadFailed remote_path e); EvFs OpExists T] ++
            [(EvFs OpRemove T, delete T (st_fs st))]))
  | O_failed e st :
      try_outcome st0 (Raise e) st →
      node_at (st_fs st) T = None →
      outcome st0 (Ret false)
        (State (st_fs st)
           (st_trace st ++
            snaps (st_fs st) [EvLog ERROR (MsgDownloadFailed remote_path e); EvFs OpExists T]))
  | O_raise e st :
      try_outcome st0 (Raise e) st →
      node_at (st_fs st) T = Some Dir →
      outcome st0 (Raise (OSError OpRemove T))
        (State (st_fs st)
           (st_trace st ++
            snaps (st_fs st) [EvLog ERROR (MsgDownloadFailed remote_path e); EvFs OpExists T] ++
            [(EvFs OpRemove T, st_fs st)])).

(** The snapshots before the rename agree with [fs0] on the final path. *)
Definition untouched (fs0 : fsT) (tr : list (event * fsT)) : Prop :=
  Forall (λ x, node_at x.2 F = node_at fs0 F) tr.

(** The shape of a run that commits the file. *)
Definition committed (fs0 : fsT) (st : state) : Prop :=
  ∃ resp n pre fs3 fs4,
    serve w GET url = Reply resp ∧ expected_size resp = Ret n ∧
    st_fs st = fs4 ∧
    st_trace st = pre ++ [(EvFs OpStat T, fs3); (EvFs OpRename F, fs4);
                          (EvLog INFO (MsgCompleted local_path n), fs4)] ∧
    untouched fs0 pre ∧
    node_at fs3 F = node_at fs0 F ∧
    st_size w fs3 T = Some n ∧
    node_at fs4 F = Some (File (concat (chunks resp))) ∧
    st_size w fs4 F = Some n.

(** Every write of a run goes to the temporary path. *)
Definition writes_to_temp (x : event * fsT) : Prop :=
  ∀ p, x.1 = EvFs OpWrite p → p = T.

End Outcomes.

(** The trace of the skip path: the request, the [mkdir], the two calls
    of the skip check and one log record; no body chunk, no write. *)
Definition skip_trace (self : downloader) (remote_path local_path : str)
    (fs0 fs1 : fsT) (n : Z) : list (event * fsT) :=
  (EvRequest GET (base_url self ++ remote_path), fs0) ::
  snaps fs1 [EvFs OpMkdir (parent (Path local_path));
             EvFs OpExists (Path local_path);
             EvFs OpStat (Path local_path);
             EvLog INFO (MsgAlreadyComplete local_path n)].

(** [m] raises nothing but exceptions in [P]. *)
Definition raises_only {A} (P : exn → Prop) (m : M A) : Prop :=
  ∀ st e, (m st).1 = Raise e → P e.




(** ** Concrete worlds and file systems *)

Definition no_env : str → option str := λ _, None.

Definition the_downloader : downloader :=
  Downloader false 4 (lit "local") (lit "no_job") (lit "http://host") (lit "u", lit "p").

(** A server that answers every GET with three bytes in two chunks and an
    empty one, announced by [Content-Length: 3]. *)
Definition three_bytes : response :=
  Response 200 (Some (lit "3")) None [[x01; x02]; []; [x03]] None.

Definition world_three : world :=
  World (λ _ _, Reply three_bytes) 4096 no_env (Some 4) true.

(** A server that cannot be reached. *)
Definition world_down : world :=
  World (λ _ _, NoReply (lit "connection refused")) 4096 no_env (Some 4) true.


(** One directory with one file of three bytes. *)
Definition fs_one_file : fsT :=
  {[ Path (lit "out") := Dir; Path (lit "out/a.txt") := File [x0a; x0b; x0c] ]}.



(** A server that answers every request with the given status and an
    empty body. *)
Definition world_status (status : Z) : world :=
  World (λ _ _, Reply (Response status None None [] None)) 4096 no_env (Some 4) true.


Definition two_lines : str := lit "/remote/data/a" ++ LF :: lit "b".

Definition nested_entry : str := lit "/data/x/data2/f" ++ LF :: lit "g".

(** A server with one folder of two files; the body of [a.txt] is cut
    after two of its three bytes. *)
Definition serve_truncated (m : http_method) (url : str) : reply :=
  match m with
  | PROPFIND =>
      Reply (Response 207 None
               (Some [Some (lit "/data/"); Some (lit "/data/a.txt"); Some (lit "/data/b.txt")])
               [] None)
  | GET =>
      if bool_decide (url = lit "http://host/data/a.txt")
      then Reply (Response 200 (Some (lit "3")) None [[x01; x02]] None)
      else Reply (Response 200 (Some (lit "3")) None [[x01; x02; x03]] None)
  end.

Definition world_truncated : world := World serve_truncated 4096 no_env (Some 4) true.


(** ** Definitions for the further properties *)

(** [m] raises, whatever the state. *)
Definition always_raises {A} (m : M A) : Prop :=
  ∀ st, ∃ e, (m st).1 = Raise e.

(** [m] only adds to the trace, and every event it adds is in [P]. *)
Definition emits_only {A} (P : event → Prop) (m : M A) : Prop :=
  ∀ st, ∃ tw, st_trace (m st).2 = st_trace st ++ tw ∧ Forall (λ x, P x.1) tw.

(** The progress records that the chunk loop may write for the file
    stored at [local_path]. *)
Definition progress_ok (local_path : str) (e : event) : Prop :=
  ∀ l p downloaded file_size,
    e = EvLog l (MsgProgress p downloaded file_size) →
    l = INFO ∧ p = local_path ∧
    100 * 1024 * 1024 < file_size ∧ 0 < downloaded ∧
    downloaded mod (50 * 1024 * 1024) = 0.



(** A server whose files are as long as a directory entry is big. *)
Definition world_4096 : world :=
  World (λ _ _, Reply (Response 200 (Some (lit "4096")) None [[x01]] None))
        4096 no_env (Some 4) true.

(** A server whose listings are not XML. *)
Definition world_bad_xml : world :=
  World (λ _ _, Reply (Response 207 None None [] None)) 4096 no_env (Some 4) true.

(** A server that lists a file first and the folder itself after it. *)
Definition world_loop : world :=
  World (λ _ _, Reply (Response 207 None
                         (Some [Some (lit "/data/a.txt"); Some (lit "/data/")]) [] None))
        4096 no_env (Some 4) true.

(** A server whose listing holds an empty [href] element. *)
Definition world_empty_href : world :=
  World (λ _ _, Reply (Response 207 None
                         (Some [Some (lit "/data/"); None]) [] None))
        4096 no_env (Some 4) true.

(** A cluster environment that allots no CPU, and the object built in it. *)
Definition world_zero_cpus : world :=
  World serve_truncated 4096
    (λ k, if bool_decide (k = lit "SLURM_CPUS_PER_TASK") then Some (lit "0") else None)
    (Some 4) true.

Definition zero_workers : downloader :=
  Downloader true 0 (lit "local") (lit "no_job") (lit "http://host") (lit "u", lit "p").

(** * Properties *)

(** A closed decidable fact, by evaluation of its decision procedure. *)
Ltac by_compute := apply (bool_decide_unpack _); vm_compute; exact I.

Example escape_dot : Re.escape (lit "a.b") = lit "a\.b".
Proof. reflexivity. Qed.

Example expected_size_ex :
  expected_size (Response 200 (Some (lit " 42 ")) None [] None) = Ret 42 ∧
  expected_size (Response 200 (Some (lit "4.2")) None [] None) =
    Raise (ValueError (lit "invalid literal for int() with base 10")) ∧
  expected_size (Response 200 (Some ("1"%char :: repeat "0"%char 318)) None [] None) =
    Raise OverflowError.
Proof. repeat split; vm_compute; reflexivity. Qed.

Example py_int_ex :
  py_int (lit " 1_000 ") = Some 1000 ∧ py_int (lit "abc") = None ∧
  py_int (lit "-5") = Some (-5) ∧ py_int (lit "") = None ∧ py_int (lit "1__0") = None.
Proof. repeat split; reflexivity. Qed.

Example Path_ex :
  Path (lit "/a//b/./c/") = (true, [lit "a"; lit "b"; lit "c"]) ∧
  Path (lit "") = (false, []) ∧
  path_str (joinpath (Path (lit "out/x")) (name (Path (lit "/data/sub")))) = lit "out/x/sub".
Proof. repeat split; reflexivity. Qed.

(** ** Strings *)

Lemma startswith_prefix (p s : str) : startswith p s = true ↔ ∃ t, s = p ++ t.
Proof.
  revert s; induction p as [|a p IH]; intros s; simpl.
  - split; [intros _; by exists s | done].
  - destruct s as [|b s]; simpl.
    + split; [done | intros [t Ht]; discriminate].
    + rewrite andb_true_iff, bool_decide_eq_true, IH. split.
      * intros [-> [t ->]]. by exists t.
      * intros [t Ht]. injection Ht as -> ->. split; [done | by exists t].
Qed.

Lemma startswith_app (p t : str) : startswith p (p ++ t) = true.
Proof. apply startswith_prefix. by exists t. Qed.

(** ** The regular-expression engine on the patterns of [filter_string] *)

Module ReFacts.
Import Re.

Lemma special_not_alnum c :
  c ∈ special_chars → is_ascii_letter c || is_digit c = false.
Proof.
  revert c. apply Forall_forall.
  by_compute.
Qed.

Lemma pattern_chars_special c : c ∈ pattern_chars → c ∈ special_chars.
Proof.
  revert c. apply Forall_forall.
  by_compute.
Qed.

Lemma parse_atom_escape_char c rest :
  parse_atom (escape_char c ++ rest) = Some (ALit c, rest).
Proof.
  unfold escape_char, ascii_in. case_bool_decide as Hc; simpl.
  - by rewrite (special_not_alnum c Hc).
  - assert (c ≠ "\"%char) as H1.
    { intros ->. apply Hc. by_compute. }
    assert (c ≠ "."%char) as H2.
    { intros ->. apply Hc. by_compute. }
    rewrite !bool_decide_eq_false_2 by done.
    unfold ascii_in. rewrite bool_decide_eq_false_2; [done|].
    intros Hp. by apply Hc, pattern_chars_special.
Qed.

(** What follows an escaped character is never a ['*']. *)
Lemma escape_char_head c rest :
  ∃ h t, escape_char c ++ rest = h :: t ∧ h ≠ "*"%char.
Proof.
  unfold escape_char, ascii_in. case_bool_decide as Hc; simpl.
  - by eexists _, _.
  - eexists _, _. split; [done|]. intros ->. apply Hc.
    by_compute.
Qed.

Lemma escape_cons c s rest :
  escape (c :: s) ++ rest = escape_char c ++ (escape s ++ rest).
Proof. unfold escape. simpl. by rewrite <- app_assoc. Qed.

Lemma escape_length s : (length s ≤ length (escape s))%nat.
Proof.
  induction s as [|c s IH]; [done|].
  change (escape (c :: s)) with (escape_char c ++ escape s).
  rewrite length_app. unfold escape_char. destruct (ascii_in _ _); simpl; lia.
Qed.

Lemma escape_head s :
  ∃ h t, escape s ++ lit ".*" = h :: t ∧ h ≠ "*"%char.
Proof.
  destruct s as [|c s].
  - by eexists _, _.
  - rewrite escape_cons. apply escape_char_head.
Qed.

Lemma parse_step n h t a rest :
  parse_atom (h :: t) = Some (a, rest) →
  parse (S n) (h :: t) =
    match rest with
    | q :: rest' =>
        if bool_decide (q = "*"%char)
        then (Star a ::.) <$> parse n rest'
        else (One a ::.) <$> parse n rest
    | [] => Some [One a]
    end.
Proof. intros H. cbn [parse]. by rewrite H. Qed.

Lemma parse_literal n h t c rest :
  parse_atom (h :: t) = Some (ALit c, rest ++ lit ".*") →
  (∃ h' t', rest ++ lit ".*" = h' :: t' ∧ h' ≠ "*"%char) →
  parse (S n) (h :: t) = (One (ALit c) ::.) <$> parse n (rest ++ lit ".*").
Proof.
  intros H (h' & t' & Hht' & Hh'). rewrite (parse_step _ _ _ _ _ H), Hht'.
  by rewrite bool_decide_eq_false_2.
Qed.

Lemma parse_escape (s : str) (n : nat) :
  (length s + 2 ≤ n)%nat →
  parse n (escape s ++ lit ".*") = Some (lits s ++ [Star ADot]).
Proof.
  revert n; induction s as [|c s IH]; intros n Hn.
  - destruct n as [|[|n]]; [lia..|]. reflexivity.
  - destruct n as [|n]; [simpl in Hn; lia|].
    simpl in Hn. rewrite escape_cons.
    destruct (escape_char_head c (escape s ++ lit ".*")) as (h & t & Hht & Hh).
    rewrite Hht. erewrite parse_literal.
    + rewrite IH by lia. done.
    + rewrite <- Hht. apply parse_atom_escape_char.
    + apply escape_head.
Qed.

(** The pattern of [filter_string] always compiles, whatever the base
    string holds, to: a slash, the characters of the base string as
    literals, and a greedy [.*]. *)
Lemma compile_filter_pattern (base : str) :
  compile (filter_pattern base) = Some (lits ("/"%char :: base) ++ [Star ADot]).
Proof.
  unfold compile, filter_pattern. cbn [length].
  erewrite parse_literal.
  - rewrite parse_escape; [done|].
    pose proof (escape_length base). rewrite length_app. simpl. lia.
  - reflexivity.
  - apply escape_head.
Qed.

Lemma match_star_dot (s : str) :
  match_star ADot (match_here []) s = Some (Spec.line_of s).
Proof.
  induction s as [|c s IH]; [done|].
  cbn [match_star atom_matches Spec.line_of].
  case_bool_decide; cbn [negb]; [done|]. by rewrite IH.
Qed.

Lemma match_here_lits (needle s : str) :
  match_here (lits needle ++ [Star ADot]) s =
  if startswith needle s
  then Some (needle ++ Spec.line_of (drop (length needle) s))
  else None.
Proof.
  revert s; induction needle as [|a needle IH]; intros s.
  - apply match_star_dot.
  - destruct s as [|b s]; [done|].
    cbn [lits map app match_here atom_matches startswith length drop].
    case_bool_decide as Hab; [subst b|done].
    fold (lits needle). rewrite IH. by destruct (startswith needle s).
Qed.

Lemma search_lits (needle s : str) :
  search (lits needle ++ [Star ADot]) s = Spec.line_from_first needle s.
Proof.
  unfold Spec.line_from_first.
  induction s as [|b s IH].
  - simpl. rewrite match_here_lits. destruct needle; done.
  - cbn [search Spec.suffix_from_first]. rewrite match_here_lits.
    destruct (startswith needle (b :: s)); [done|]. apply IH.
Qed.

End ReFacts.

(** ** Paths *)

Lemma seg_scan_app st s1 s2 : seg_scan st (s1 ++ s2) = seg_scan (seg_scan st s1) s2.
Proof. apply fold_left_app. Qed.

Lemma seg_scan_shape (x : str) (d : list str) (c : str) :
  ∃ extra c', seg_scan (d, c) x = (d ++ extra, c') ∧
    ((extra = [] ∧ c' = c ++ x) ∨ (∃ y more, extra = (c ++ y) :: more)).
Proof.
  revert d c; induction x as [|ch x IH]; intros d c.
  - exists [], c. rewrite !app_nil_r. split; [done | by left].
  - cbn [seg_scan fold_left]. unfold seg_step at 2. cbn [fst snd].
    destruct (is_slash ch).
    + destruct (IH (d ++ [c]) []) as (extra & c' & Heq & _).
      exists (c :: extra), c'. split.
      * unfold seg_scan in Heq. rewrite Heq. by rewrite <- app_assoc.
      * right. exists [], extra. by rewrite app_nil_r.
    + destruct (IH d (c ++ [ch])) as (extra & c' & Heq & Hsh).
      exists extra, c'. split; [exact Heq|].
      destruct Hsh as [[-> ->]|(y & more & ->)].
      * left. by rewrite <- app_assoc.
      * right. exists (ch :: y), more. by rewrite <- app_assoc.
Qed.

Lemma seg_scan_no_slash (z : str) (st : list str * str) :
  Forall (λ ch, is_slash ch = false) z → seg_scan st z = (st.1, st.2 ++ z).
Proof.
  revert st; induction z as [|ch z IH]; intros [d c] Hz.
  - simpl. by rewrite app_nil_r.
  - apply Forall_cons in Hz as [Hch Hz].
    cbn [seg_scan fold_left]. unfold seg_step at 2. rewrite Hch. cbn [fst snd].
    unfold seg_scan in IH. rewrite IH by done. cbn [fst snd]. by rewrite <- app_assoc.
Qed.

Lemma proper_seg_long (s : str) : (2 ≤ length s)%nat → proper_seg s = true.
Proof.
  destruct s as [|? [|? ?]]; simpl; [lia..|]. intros _.
  unfold proper_seg. by rewrite !bool_decide_eq_false_2.
Qed.

Lemma proper_seg_nonempty (s : str) : proper_seg s = true → s ≠ [].
Proof. by intros H ->. Qed.

Lemma filter_proper_cons (x : str) (l : list str) :
  filter (λ seg, proper_seg seg) (x :: l) =
  if proper_seg x then x :: filter (λ seg, proper_seg seg) l
  else filter (λ seg, proper_seg seg) l.
Proof.
  destruct (proper_seg x) eqn:Hx.
  - apply filter_cons_True. by apply Is_true_true_2.
  - apply filter_cons_False. by apply Is_true_false_2.
Qed.

(** The temporary path never lies on the chain from the root to the
    final path. *)
Lemma temp_parts_not_prefix (local job : str) :
  ¬ parts_of (local ++ "."%char :: job ++ lit ".temp") `prefix_of` parts_of local.
Proof.
  unfold parts_of, split_slash.
  rewrite seg_scan_app.
  destruct (seg_scan ([], []) local) as [d c] eqn:Hl.
  change ("."%char :: job ++ lit ".temp") with (["."%char] ++ job ++ lit ".temp").
  rewrite !seg_scan_app.
  change (seg_scan (d, c) ["."%char]) with (d, c ++ ["."%char]).
  destruct (seg_scan_shape job d (c ++ ["."%char])) as (extra & c' & -> & Hsh).
  rewrite seg_scan_no_slash by by_compute.
  cbn [fst snd]. rewrite <- !app_assoc, !filter_app.
  intros Hp%prefix_app_inv.
  assert (proper_seg (c' ++ lit ".temp") = true) as Hc'.
  { apply proper_seg_long. rewrite length_app. simpl. lia. }
  rewrite !filter_proper_cons, Hc', !filter_nil in Hp.
  destruct (proper_seg c) eqn:Hc.
  - destruct Hsh as [[-> ->]|(y & more & ->)].
    + rewrite filter_nil in Hp. simpl in Hp.
      apply prefix_cons_inv_1 in Hp.
      apply (f_equal length) in Hp. rewrite !length_app in Hp. simpl in Hp. lia.
    + rewrite filter_proper_cons, proper_seg_long in Hp.
      * apply prefix_length in Hp. rewrite length_cons, length_app in Hp.
        simpl in Hp. lia.
      * apply proper_seg_nonempty in Hc. destruct c; [done|].
        rewrite !length_app. simpl. lia.
  - apply prefix_length in Hp. rewrite length_app in Hp. simpl in Hp. lia.
Qed.

Lemma chain_prefix (p q : path) : q ∈ chain p → q.1 = p.1 ∧ q.2 `prefix_of` p.2.
Proof.
  unfold chain. intros (n & -> & _)%list_elem_of_fmap. split; [done|].
  apply prefix_take.
Qed.

Lemma parent_prefix (p : path) : (parent p).2 `prefix_of` p.2.
Proof.
  unfold parent. cbn [snd]. destruct p as [a l]. cbn [snd].
  induction l as [|x [|y l] IH]; [done| |].
  - apply prefix_nil.
  - cbn [removelast] in *. by apply prefix_cons.
Qed.

Section TempPath.
Context (self : downloader) (local_path : str).

Lemma temp_not_final : Path (temp_path_of self local_path) ≠ Path local_path.
Proof.
  intros H. apply (temp_parts_not_prefix local_path (job_id self)).
  apply (f_equal snd) in H. cbn [Path snd] in H.
  unfold temp_path_of in H. by rewrite H.
Qed.

Lemma temp_not_on_chain :
  Path (temp_path_of self local_path) ∉ chain (parent (Path local_path)).
Proof.
  intros [_ H]%chain_prefix.
  apply (temp_parts_not_prefix local_path (job_id self)).
  etrans; [exact H|]. apply (parent_prefix (Path local_path)).
Qed.
End TempPath.

(** ** The file system *)

Lemma chain_elem (p q : path) :
  q ∈ chain p ↔ ∃ n, (1 ≤ n ≤ length p.2)%nat ∧ q = (p.1, take n p.2).
Proof.
  unfold chain. rewrite list_elem_of_fmap. split.
  - intros (n & -> & Hn%elem_of_seq). exists n. split; [lia|done].
  - intros (n & Hn & ->). exists n. split; [done|]. apply elem_of_seq. lia.
Qed.

Lemma chain_not_root (p q : path) : q ∈ chain p → is_root q = false.
Proof.
  intros (n & Hn & ->)%chain_elem. unfold is_root. cbn [snd].
  apply bool_decide_eq_false_2. intros H%(f_equal length).
  rewrite length_take in H. simpl in H. lia.
Qed.

Lemma node_at_lookup (fs : fsT) (p : path) :
  is_root p = false → node_at fs p = fs !! p.
Proof. unfold node_at. by intros ->. Qed.

Lemma node_at_root (fs : fsT) (p : path) :
  is_root p = true → node_at fs p = Some Dir.
Proof. unfold node_at. by intros ->. Qed.

Lemma node_at_file_not_root (fs : fsT) (p : path) d :
  node_at fs p = Some (File d) → is_root p = false.
Proof. unfold node_at. by destruct (is_root p). Qed.

Lemma self_not_on_parent_chain (p : path) : p ∉ chain (parent p).
Proof.
  intros (n & Hn & Hp)%chain_elem. apply (f_equal (length ∘ snd)) in Hp.
  unfold parent in *. cbn [fst snd compose] in *.
  rewrite length_take in Hp.
  destruct p as [a l]. cbn [snd] in *.
  assert (length (removelast l) < length l ∨ l = [])%nat as [Hlt|Hnil].
  { destruct l as [|x l] using rev_ind; [by right|left].
    rewrite removelast_last, length_app. simpl. lia. }
  - lia.
  - subst l. simpl in Hn. lia.
Qed.

Lemma mkdir_chain_frame (fs : fsT) (ps : list path) (q : path) :
  q ∉ ps → (mkdir_chain fs ps).2 !! q = fs !! q.
Proof.
  revert fs; induction ps as [|p ps IH]; intros fs Hq; [done|].
  apply not_elem_of_cons in Hq as [Hqp Hq]. simpl.
  destruct (fs !! p) as [[d|]|]; [done|by apply IH|].
  rewrite IH by done. by apply lookup_insert_ne.
Qed.

Lemma mkdir_chain_keeps (fs : fsT) (ps : list path) (q : path) (n : node) :
  fs !! q = Some n → (mkdir_chain fs ps).2 !! q = Some n.
Proof.
  revert fs; induction ps as [|p ps IH]; intros fs Hq; [done|]. simpl.
  destruct (fs !! p) as [[d|]|] eqn:Hp; [done|by apply IH|].
  apply IH. rewrite lookup_insert_ne; [done|]. intros ->. congruence.
Qed.



Lemma mkdir_chain_noop (fs : fsT) (ps : list path) :
  (∀ q, q ∈ ps → fs !! q = Some Dir) → mkdir_chain fs ps = (Ret (), fs).
Proof.
  induction ps as [|p ps IH]; intros H; [done|]. simpl.
  rewrite (H p) by apply list_elem_of_here. apply IH.
  intros q Hq. apply H. by apply list_elem_of_further.
Qed.


(** [mkdir] leaves every node in place: it only adds directories. *)
Lemma mkdir_chain_node_at (fs : fsT) (p q : path) :
  q ∉ chain p → node_at (mkdir_chain fs (chain p)).2 q = node_at fs q.
Proof. intros Hq. unfold node_at. by rewrite mkdir_chain_frame. Qed.

Lemma mkdir_chain_is_dir (fs : fsT) (ps : list path) (q : path) :
  is_dir fs q = true → is_dir (mkdir_chain fs ps).2 q = true.
Proof.
  unfold is_dir, node_at. destruct (is_root q); [done|].
  destruct (fs !! q) as [[|]|] eqn:Hq; [done| |done].
  by rewrite (mkdir_chain_keeps _ _ _ _ Hq).
Qed.

Lemma removelast_length {A} (l : list A) : length (removelast l) = (length l - 1)%nat.
Proof.
  destruct l as [|x l] using rev_ind; [done|].
  rewrite removelast_last, length_app. simpl. lia.
Qed.

Lemma removelast_take {A} (l : list A) : removelast l = take (length l - 1) l.
Proof.
  destruct l as [|x l] using rev_ind; [done|].
  rewrite removelast_last, length_app. simpl.
  replace (length l + 1 - 1)%nat with (length l) by lia.
  by rewrite take_app_length.
Qed.

Lemma take_removelast {A} (l : list A) (m : nat) :
  (m ≤ length l)%nat → removelast (take m l) = take (m - 1) l.
Proof.
  intros Hm. rewrite removelast_take, length_take, take_take.
  f_equal. lia.
Qed.

(** In a well-formed file system the ancestors of a node are directories. *)
Lemma wf_ancestors (fs : fsT) (a : bool) (l : list str) (k : nat) :
  fs_wf fs → is_Some (node_at fs (a, l)) →
  (k < length l)%nat → is_dir fs (a, take k l) = true.
Proof.
  intros Hwf Hl Hk.
  assert (∀ j, (j ≤ length l)%nat → is_Some (node_at fs (a, take (length l - j) l))) as H.
  { induction j as [|j IH]; intros Hj.
    - by rewrite Nat.sub_0_r, firstn_all.
    - destruct IH as [n Hn]; [lia|]. apply Hwf in Hn.
      unfold parent in Hn. cbn [fst snd] in Hn.
      rewrite take_removelast in Hn by lia.
      replace (length l - S j)%nat with (length l - j - 1)%nat by lia.
      unfold is_dir in Hn. destruct (node_at fs (a, take (length l - j - 1) l)) as [nd|]; [by exists nd|done]. }
  destruct (H (length l - S k)%nat ltac:(lia)) as [n Hn].
  apply Hwf in Hn. unfold parent in Hn. cbn [fst snd] in Hn.
  rewrite take_removelast in Hn by lia.
  by replace (length l - (length l - S k) - 1)%nat with k in Hn by lia.
Qed.

Lemma wf_parent_chain (fs : fsT) (p q : path) :
  fs_wf fs → is_Some (node_at fs p) → q ∈ chain (parent p) → fs !! q = Some Dir.
Proof.
  intros Hwf Hp Hq. pose proof (chain_not_root _ _ Hq) as Hroot.
  apply chain_elem in Hq as (n & Hn & ->).
  destruct p as [a l]. unfold parent in *. cbn [fst snd] in *.
  rewrite removelast_length in Hn. rewrite removelast_take in *.
  rewrite take_take in *. rewrite Nat.min_l in * by lia.
  pose proof (wf_ancestors fs a l n Hwf Hp ltac:(lia)) as Hd.
  unfold is_dir in Hd. rewrite node_at_lookup in Hd by done.
  by destruct (fs !! _) as [[]|].
Qed.

(** ** Stepping through monadic code *)

Lemma bind_run {A B} (m : M A) (k : A → M B) (st : state) :
  bind m k st =
  match m st with
  | (Ret a, st') => k a st'
  | (Raise e, st') => (Raise e, st')
  end.
Proof. reflexivity. Qed.

Lemma emit_run (e : event) (st : state) : emit e st = (Ret (), add st e).
Proof. reflexivity. Qed.

Lemma log_run l msg (st : state) : log l msg st = (Ret (), add st (EvLog l msg)).
Proof. reflexivity. Qed.

(** ** The chunk loop *)

Lemma write_chunks_run (local_path : str) (temp : path) (file_size : Z)
    (cs : list (list byte)) (downloaded : Z) (fs : fsT) (tr : list (event * fsT))
    (data : list byte) :
  node_at fs temp = Some (File data) →
  ∃ tw,
    write_chunks local_path temp file_size downloaded cs (State fs tr) =
      (Ret (downloaded + Z.of_nat (length (concat cs))),
       State (<[temp := File (data ++ concat cs)]> fs) (tr ++ tw)) ∧
    Forall (λ x, loop_event temp x.1 ∧ ∃ d, x.2 = <[temp := File d]> fs) tw.
Proof.
  intros Hnode. pose proof (node_at_file_not_root _ _ _ Hnode) as Hroot.
  rewrite node_at_lookup in Hnode by done.
  revert downloaded fs tr data Hnode.
  induction cs as [|chunk cs IH]; intros downloaded fs tr data Hnode.
  - exists []. split; [|by apply Forall_nil].
    cbn [write_chunks concat length]. unfold ret.
    by rewrite !app_nil_r, Z.add_0_r, insert_id.
  - cbn [write_chunks]. rewrite bind_run, emit_run.
    destruct chunk as [|b chunk].
    + destruct (IH downloaded fs (st_trace (add (State fs tr) (EvRecv []))) data Hnode)
        as (tw & Hrun & Htw).
      exists ((EvRecv [], fs) :: tw). split.
      * unfold add in *. cbn [st_fs st_trace] in *. rewrite Hrun.
        cbn [concat app]. by rewrite <- app_assoc.
      * apply Forall_cons. split; [|done]. split; [done|].
        exists data. by rewrite insert_id.
    + set (c := b :: chunk) in *.
      assert (node_at fs temp = Some (File data)) as Hn by by rewrite node_at_lookup.
      rewrite bind_run. unfold write at 1, fs_call. cbn [st_fs st_trace add].
      rewrite Hn. set (fs' := <[temp:=File (data ++ c)]> fs).
      set (dl := downloaded + Z.of_nat (length c)).
      assert (fs' !! temp = Some (File (data ++ c))) as Hfs' by apply lookup_insert_eq.
      rewrite bind_run.
      destruct ((file_size >? 100 * 1024 * 1024) && (dl `mod` (50 * 1024 * 1024) =? 0)).
      * rewrite log_run. unfold add. cbn [st_fs st_trace].
        destruct (IH dl fs' (((tr ++ [(EvRecv c, fs)]) ++ [(EvFs OpWrite temp, fs')]) ++
                   [(EvLog INFO (MsgProgress local_path dl file_size), fs')]) _ Hfs')
          as (tw & Hrun & Htw).
        exists ((EvRecv c, fs) :: (EvFs OpWrite temp, fs') ::
                (EvLog INFO (MsgProgress local_path dl file_size), fs') :: tw).
        split.
        -- rewrite Hrun. unfold fs', dl. rewrite insert_insert_eq.
           cbn [concat]. rewrite length_app, Nat2Z.inj_add, <- !app_assoc.
           f_equal. f_equal. lia.
        -- repeat (apply Forall_cons; split).
           ++ split; [done|]. exists data. by rewrite insert_id.
           ++ split; [done|]. by eexists.
           ++ split; [done|]. by eexists.
           ++ eapply Forall_impl; [exact Htw|]. intros [ev f] [? [d ->]].
              split; [done|]. exists d. unfold fs'. by rewrite insert_insert_eq.
      * unfold ret at 1.
        destruct (IH dl fs' ((tr ++ [(EvRecv c, fs)]) ++ [(EvFs OpWrite temp, fs')]) _ Hfs')
          as (tw & Hrun & Htw).
        exists ((EvRecv c, fs) :: (EvFs OpWrite temp, fs') :: tw).
        split.
        -- rewrite Hrun. unfold fs', dl. rewrite insert_insert_eq.
           cbn [concat]. rewrite length_app, Nat2Z.inj_add, <- !app_assoc.
           f_equal. f_equal. lia.
        -- repeat (apply Forall_cons; split).
           ++ split; [done|]. exists data. by rewrite insert_id.
           ++ split; [done|]. by eexists.
           ++ eapply Forall_impl; [exact Htw|]. intros [ev f] [? [d ->]].
              split; [done|]. exists d. unfold fs'. by rewrite insert_insert_eq.
Qed.

(** ** One transfer, path by path *)

Section Transfer.

Context (w : world) (self : downloader) (remote_path local_path : str).

Local Abbreviation url := (base_url self ++ remote_path).
Local Abbreviation F := (Path local_path).
Local Abbreviation T := (Path (temp_path_of self local_path)).
Local Abbreviation Pa := (parent (Path local_path)).

Lemma st_size_exists (fs : fsT) (p : path) :
  exists_ fs p = true ↔ is_Some (st_size w fs p).
Proof.
  unfold exists_, st_size. destruct (node_at fs p) as [[|]|]; split;
    (done || by eexists || by intros [? ?]).
Qed.

Lemma try_outcome_eq st0 r st st' :
  try_outcome w self remote_path local_path st0 r st' → st' = st → try_outcome w self remote_path local_path st0 r st.
Proof. by intros ? <-. Qed.

Lemma stream_outcome_eq resp n fs tr r st st' :
  stream_outcome self local_path resp n fs tr r st' → st' = st → stream_outcome self local_path resp n fs tr r st.
Proof. by intros ? <-. Qed.

Lemma st_size_insert_file (fs : fsT) (p : path) (d : list byte) :
  is_root p = false → st_size w (<[p := File d]> fs) p = Some (Z.of_nat (length d)).
Proof.
  intros Hp. unfold st_size. by rewrite node_at_lookup, lookup_insert_eq.
Qed.

Lemma is_dir_not_root (fs : fsT) (p : path) : is_dir fs p = false → is_root p = false.
Proof. unfold is_dir, node_at. by destruct (is_root p). Qed.

Ltac trace_eq :=
  unfold add, snaps, checks; cbn [st_fs st_trace map app];
  repeat match goal with H : exists_ _ _ = _ |- _ => rewrite H end;
  repeat (progress (rewrite ?List.map_app, <- ?app_assoc; cbn [map app]));
  reflexivity.

Ltac unfold_prims H :=
  unfold request, raise_for_status, mkdir_parents, path_exists, stat_size,
    open_wb, rename, remove, log in H;
  unfold emit, fs_call, bind, ret, raise, lift in H;
  cbn beta iota zeta delta [st_fs st_trace fst snd] in H.

Ltac reduce H := cbn beta iota zeta delta [st_fs st_trace fst snd] in H.

Lemma download_file_try_outcome (st0 : state) r st :
  download_file_try w self remote_path local_path st0 = (r, st) →
  try_outcome w self remote_path local_path st0 r st.
Proof.
  intros Hrun. unfold download_file_try in Hrun. unfold_prims Hrun.
  pose proof (eq_refl : transfer_head w self remote_path = transfer_head w self remote_path) as Hhead.
  unfold transfer_head at 2 in Hhead.
  destruct (serve w GET url) as [cause|resp] eqn:Hserve; reduce Hrun.
  { injection Hrun as <- <-. by apply TO_head. }
  destruct ((400 <=? status_code resp) && (status_code resp <? 600)) eqn:Hstatus;
    reduce Hrun.
  { injection Hrun as <- <-. by apply TO_head. }
  destruct (expected_size resp) as [n|e] eqn:Hn; reduce Hrun.
  2:{ injection Hrun as <- <-. by apply TO_head. }
  destruct (mkdir_chain (st_fs st0) (chain Pa)) as [[[]|e] fs1] eqn:Hmk; reduce Hrun.
  2:{ injection Hrun as <- <-. by eapply TO_mkdir. }
  match type of Hrun with
  | (let (_, _) := ?m in _) = _ => set (chk := m) in Hrun
  end.
  assert (chk = (Ret (bool_decide (st_size w fs1 F = Some n)),
                 State fs1 (st_trace (add st0 (EvRequest GET url)) ++
                            snaps fs1 (EvFs OpMkdir Pa :: checks local_path fs1)))) as Hchk.
  { subst chk. destruct (exists_ fs1 F) eqn:Hex.
    - apply st_size_exists in Hex as Hsz. destruct Hsz as [sz Hsz].
      cbn beta iota zeta delta [st_fs st_trace fst snd]. rewrite Hsz.
      cbn beta iota zeta delta [st_fs st_trace fst snd]. f_equal.
      + f_equal. case_bool_decide as Hd.
        * injection Hd as ->. apply Z.eqb_refl.
        * apply Z.eqb_neq. congruence.
      + trace_eq.
    - f_equal.
      + f_equal. symmetry. apply bool_decide_eq_false_2. intros Hsz.
        apply eq_true_false_abs in Hex; [done|]. apply st_size_exists. by eexists.
      + trace_eq. }
  rewrite Hchk in Hrun. clear chk Hchk. reduce Hrun.
  case_bool_decide as Hsz; reduce Hrun.
  { injection Hrun as <- <-.
    assert (exists_ fs1 F = true) as Hex by (apply st_size_exists; by eexists).
    eapply try_outcome_eq; [by eapply TO_skip|]. trace_eq. }
  destruct (is_dir fs1 T || negb (is_dir fs1 (parent T))) eqn:Hopen; reduce Hrun.
  { injection Hrun as <- <-.
    eapply try_outcome_eq; [by eapply TO_open|trace_eq]. }
  eapply TO_stream; [eassumption..|].
  apply orb_false_elim in Hopen as Hopen'.
  destruct Hopen' as [HT%is_dir_not_root _].
  match type of Hrun with
  | context [write_chunks ?l ?t ?n ?d ?cs (State ?fs ?tr)] =>
      destruct (write_chunks_run l t n cs d fs tr [])
        as (tw & Hloop & Htw);
      [ by rewrite node_at_lookup, lookup_insert_eq
      | rewrite Hloop in Hrun; clear Hloop; reduce Hrun ]
  end.
  rewrite insert_insert_eq, app_nil_l in Hrun.
  assert (Forall (λ x, loop_event T x.1 ∧ ∃ d, x.2 = <[T := File d]> fs1) tw) as Htw'.
  { eapply Forall_impl; [exact Htw|].
    intros [? ?] [? [d ->]]. split; [done|].
    exists d. by rewrite insert_insert_eq. }
  clear Htw.
  destruct (stream_error resp) as [e|] eqn:Hse; reduce Hrun.
  { injection Hrun as <- <-.
    eapply stream_outcome_eq; [by eapply SO_stream_error|trace_eq]. }
  rewrite st_size_insert_file in Hrun by done. reduce Hrun.
  destruct (Z.of_nat (length (concat (chunks resp))) =? n) eqn:Hcmp;
    cbn [negb] in Hrun; reduce Hrun.
  2:{ apply Z.eqb_neq in Hcmp. injection Hrun as <- <-.
      eapply stream_outcome_eq; [by eapply SO_mismatch|trace_eq]. }
  apply Z.eqb_eq in Hcmp.
  unfold node_at in Hrun at 1. rewrite HT, lookup_insert_eq in Hrun.
  destruct (is_dir _ F || negb (is_dir _ Pa)) eqn:Hren; reduce Hrun;
    injection Hrun as <- <-.
  - eapply stream_outcome_eq; [by eapply SO_rename_error|trace_eq].
  - eapply stream_outcome_eq; [by eapply SO_done|trace_eq].
Qed.

(** The [except] block: the temporary file is removed when there is
    one; a directory at the temporary path makes [os.remove] raise. *)
Lemma download_file_except_run (e : exn) (st : state) :
  download_file_except self remote_path local_path e st =
  let fs := st_fs st in
  let tr := st_trace st ++
            snaps fs [EvLog ERROR (MsgDownloadFailed remote_path e); EvFs OpExists T] in
  match node_at fs T with
  | Some (File _) =>
      (Ret false, State (delete T fs) (tr ++ [(EvFs OpRemove T, delete T fs)]))
  | Some Dir =>
      (Raise (OSError OpRemove T), State fs (tr ++ [(EvFs OpRemove T, fs)]))
  | None => (Ret false, State fs tr)
  end.
Proof.
  unfold download_file_except.
  unfold path_exists, remove, log. unfold emit, fs_call, bind, ret, raise.
  cbn beta iota zeta delta [st_fs st_trace fst snd]. unfold exists_.
  destruct (node_at (st_fs st) T) as [[d|]|] eqn:Hnode;
    cbn beta iota zeta delta [st_fs st_trace fst snd];
    rewrite ?Hnode; cbn beta iota zeta delta [st_fs st_trace fst snd].
  all: f_equal; f_equal; unfold snaps; cbn [map]; by rewrite <- ?app_assoc.
Qed.

Lemma download_file_run (st0 : state) :
  download_file w self remote_path local_path st0 =
  match download_file_try w self remote_path local_path st0 with
  | (Ret b, st) => (Ret b, st)
  | (Raise e, st) => download_file_except self remote_path local_path e st
  end.
Proof.
  unfold download_file, try_except.
  by destruct (download_file_try _ _ _ _ _) as [[b|e] st].
Qed.

Lemma try_outcome_bool st0 b st : try_outcome w self remote_path local_path st0 (Ret b) st → b = true.
Proof.
  intros Hto. inversion Hto; subst; try done.
  match goal with H : stream_outcome _ _ _ _ _ _ _ _ |- _ => by inversion H end.
Qed.

Lemma download_file_outcome (st0 : state) r st :
  download_file w self remote_path local_path st0 = (r, st) → outcome w self remote_path local_path st0 r st.
Proof.
  rewrite download_file_run.
  destruct (download_file_try _ _ _ _ _) as [[b|e] st1] eqn:Htry;
    apply download_file_try_outcome in Htry.
  - intros [= <- <-]. pose proof (try_outcome_bool _ _ _ Htry) as ->.
    by apply O_done.
  - rewrite download_file_except_run. cbn zeta.
    destruct (node_at (st_fs st1) T) as [[d|]|] eqn:Hnode; intros [= <- <-].
    + rewrite <- app_assoc. by eapply O_cleaned.
    + rewrite <- app_assoc. by eapply O_raise.
    + by eapply O_failed.
Qed.

End Transfer.

Lemma node_at_insert_ne (fs : fsT) (p q : path) (x : node) :
  p ≠ q → node_at (<[p := x]> fs) q = node_at fs q.
Proof. intros Hne. unfold node_at. by rewrite lookup_insert_ne. Qed.

Lemma node_at_delete_ne (fs : fsT) (p q : path) :
  p ≠ q → node_at (delete p fs) q = node_at fs q.
Proof. intros Hne. unfold node_at. by rewrite lookup_delete_ne. Qed.

Lemma node_at_insert_eq (fs : fsT) (p : path) (x : node) :
  is_root p = false → node_at (<[p := x]> fs) p = Some x.
Proof. intros Hp. by rewrite node_at_lookup, lookup_insert_eq. Qed.

Lemma node_at_delete_eq (fs : fsT) (p : path) :
  is_root p = false → node_at (delete p fs) p = None.
Proof. intros Hp. by rewrite node_at_lookup, lookup_delete_eq. Qed.

Lemma mkdir_chain_snd_node_at (fs fs1 : fsT) (p q : path) (r : result ()) :
  mkdir_chain fs (chain p) = (r, fs1) → q ∉ chain p → node_at fs1 q = node_at fs q.
Proof.
  intros Hmk Hq. replace fs1 with (mkdir_chain fs (chain p)).2 by by rewrite Hmk.
  by apply mkdir_chain_node_at.
Qed.

Section TransferFacts.

Context (w : world) (self : downloader) (remote_path local_path : str).

Local Abbreviation url := (base_url self ++ remote_path).
Local Abbreviation F := (Path local_path).
Local Abbreviation T := (Path (temp_path_of self local_path)).
Local Abbreviation Pa := (parent (Path local_path)).

Lemma mkdir_keeps_final (fs fs1 : fsT) (r : result ()) :
  mkdir_chain fs (chain Pa) = (r, fs1) → node_at fs1 F = node_at fs F.
Proof. intros H. eapply mkdir_chain_snd_node_at; [done|]. apply self_not_on_parent_chain. Qed.

Lemma mkdir_keeps_temp (fs fs1 : fsT) (r : result ()) :
  mkdir_chain fs (chain Pa) = (r, fs1) → node_at fs1 T = node_at fs T.
Proof. intros H. eapply mkdir_chain_snd_node_at; [done|]. apply temp_not_on_chain. Qed.

Lemma untouched_snaps fs0 fs evs :
  node_at fs F = node_at fs0 F → untouched local_path fs0 (snaps fs evs).
Proof. intros H. unfold untouched, snaps. apply Forall_forall. by intros x (e & -> & _)%list_elem_of_fmap. Qed.

Lemma untouched_loop fs0 fs1 tw :
  node_at fs1 F = node_at fs0 F →
  Forall (λ x, loop_event T x.1 ∧ ∃ d, x.2 = <[T := File d]> fs1) tw →
  untouched local_path fs0 tw.
Proof.
  intros H Htw. eapply Forall_impl; [exact Htw|]. intros [ev fs] [_ [d ->]]. cbn [snd].
  rewrite node_at_insert_ne; [done|]. apply temp_not_final.
Qed.

Lemma transfer_head_Ret resp n :
  transfer_head w self remote_path = Ret (resp, n) →
  serve w GET url = Reply resp ∧ expected_size resp = Ret n.
Proof.
  unfold transfer_head. destruct (serve w GET url) as [|r]; [done|].
  destruct (_ && _); [done|]. destruct (expected_size r) eqn:He; [|done].
  by intros [= -> ->].
Qed.

Lemma try_outcome_final (st0 : state) r st :
  try_outcome w self remote_path local_path st0 r st →
  untouched local_path (st_fs st0) (st_trace st0) →
  (untouched local_path (st_fs st0) (st_trace st) ∧ node_at (st_fs st) F = node_at (st_fs st0) F ∧
   (r = Ret true → ∃ resp n, serve w GET url = Reply resp ∧ expected_size resp = Ret n ∧
                             st_size w (st_fs st) F = Some n)) ∨
  (r = Ret true ∧ committed w self remote_path local_path (st_fs st0) st).
Proof.
  intros Hto H0.
  pose proof untouched_snaps as Hsn. pose proof untouched_loop as Hlo.
  unfold untouched in *. inversion Hto as [e Hh|resp n e fs1 Hh Hmk|resp n fs1 Hh Hmk Hsz
    |resp n fs1 Hh Hmk Hsz Hop|resp n fs1 r' st' Hh Hmk Hsz Hop Hso]; subst.
  - left. split_and!; [|done..]. unfold add. cbn [st_trace st_fs].
    apply Forall_app. split; [done|]. by apply Forall_singleton.
  - left. pose proof (mkdir_keeps_final _ _ _ Hmk) as Hf. split_and!; [|done..].
    unfold add. cbn [st_trace st_fs]. rewrite !Forall_app. split_and!; [done|..];
      by apply Forall_singleton.
  - left. pose proof (mkdir_keeps_final _ _ _ Hmk) as Hf.
    apply transfer_head_Ret in Hh as [? ?]. split_and!; [|done|by eauto].
    unfold add. cbn [st_trace st_fs]. rewrite !Forall_app. split_and!; [done|..].
    + by apply Forall_singleton.
    + by apply Hsn.
  - left. pose proof (mkdir_keeps_final _ _ _ Hmk) as Hf. split_and!; [|done..].
    unfold add. cbn [st_trace st_fs]. rewrite !Forall_app. split_and!; [done|..].
    + by apply Forall_singleton.
    + by apply Hsn.
  - pose proof (mkdir_keeps_final _ _ _ Hmk) as Hf.
    apply transfer_head_Ret in Hh as [Hserve Hexp].
    assert (Forall (λ x, node_at x.2 F = node_at (st_fs st0) F)
      (st_trace (add st0 (EvRequest GET url)) ++
       snaps fs1 (EvFs OpMkdir Pa :: checks local_path fs1 ++
                  [EvLog INFO (MsgStarting local_path n)]))) as Hpre.
    { unfold add. cbn [st_trace st_fs]. rewrite !Forall_app. split_and!; [done|..].
      + by apply Forall_singleton.
      + by apply Hsn. }
    assert (T ≠ F) as HTF by apply temp_not_final.
    assert (∀ d, node_at (<[T := File d]> fs1) F = node_at (st_fs st0) F) as Hins.
    { intros d. by rewrite node_at_insert_ne. }
    apply orb_false_elim in Hop as [HT%is_dir_not_root _].
    match type of Hso with ?f ?t _ _ => remember t as tr eqn:Htr end.
    clear Htr. inversion Hso; subst;
      repeat match goal with x := _ |- _ => subst x end.
    + left. split_and!; [|by apply Hins|done]. cbn [st_trace].
      apply Forall_app. split; [done|]. apply Forall_cons. split; [apply Hins|].
      by eapply Hlo.
    + left. split_and!; [|by apply Hins|done]. cbn [st_trace].
      apply Forall_app. split; [done|]. apply Forall_cons. split; [apply Hins|].
      apply Forall_app. split; [by eapply Hlo|].
      apply Forall_singleton. apply Hins.
    + left. split_and!; [|by apply Hins|done]. cbn [st_trace].
      apply Forall_app. split; [done|]. apply Forall_cons. split; [apply Hins|].
      apply Forall_app. split; [by eapply Hlo|].
      apply Forall_cons. split; [apply Hins|]. apply Forall_singleton. apply Hins.
    + right. split; [done|].
      match goal with H : _ || _ = false |- _ =>
        apply orb_false_elim in H as [HF%is_dir_not_root _] end.
      eexists resp, _, (tr ++ _ :: tw), _, _. split_and!; [done|done|done| |..].
      * cbn [st_trace st_fs]. by rewrite <- app_assoc.
      * apply Forall_app. split; [done|]. apply Forall_cons. split; [apply Hins|].
        by eapply Hlo.
      * apply Hins.
      * by apply st_size_insert_file.
      * cbn [st_fs]. by apply node_at_insert_eq.
      * cbn [st_fs]. by rewrite st_size_insert_file.
Qed.

Lemma writes_snaps fs evs :
  Forall (λ e, ∀ p, e ≠ EvFs OpWrite p) evs → Forall (writes_to_temp self local_path) (snaps fs evs).
Proof.
  intros H. unfold snaps. apply Forall_fmap. eapply Forall_impl; [exact H|].
  intros e He p Hp. by destruct (He p).
Qed.

Lemma writes_loop fs1 tw :
  Forall (λ x, loop_event T x.1 ∧ ∃ d, x.2 = <[T := File d]> fs1) tw →
  Forall (writes_to_temp self local_path) tw.
Proof.
  intros Htw. eapply Forall_impl; [exact Htw|].
  intros [ev fs] [Hev _] p Hp. cbn [fst] in *. by subst ev.
Qed.

Ltac not_writes :=
  unfold checks;
  repeat match goal with |- context [if ?b then _ else _] => destruct b end;
  cbn [app]; repeat (apply Forall_cons; split; [done|]); by apply Forall_nil.

Lemma try_outcome_writes (st0 : state) r st :
  try_outcome w self remote_path local_path st0 r st →
  Forall (writes_to_temp self local_path) (st_trace st0) → Forall (writes_to_temp self local_path) (st_trace st).
Proof.
  intros Hto H0.
  assert (∀ fs e, (∀ p, e ≠ EvFs OpWrite p) → writes_to_temp self local_path (e, fs)) as Hone.
  { intros fs e He p Hp. by destruct (He p). }
  inversion Hto as [e Hh|resp n e fs1 Hh Hmk|resp n fs1 Hh Hmk Hsz
    |resp n fs1 Hh Hmk Hsz Hop|resp n fs1 r' st' Hh Hmk Hsz Hop Hso]; subst;
  unfold add; cbn [st_trace st_fs].
  - apply Forall_app. split; [done|]. by apply Forall_singleton, Hone.
  - rewrite !Forall_app. split_and!; [done|..]; by apply Forall_singleton, Hone.
  - rewrite !Forall_app. split_and!; [done|by apply Forall_singleton, Hone|].
    apply writes_snaps. not_writes.
  - rewrite !Forall_app. split_and!; [done|by apply Forall_singleton, Hone|].
    apply writes_snaps. not_writes.
  - assert (Forall (writes_to_temp self local_path)
      (st_trace (add st0 (EvRequest GET url)) ++
       snaps fs1 (EvFs OpMkdir Pa :: checks local_path fs1 ++
                  [EvLog INFO (MsgStarting local_path n)]))) as Hpre.
    { unfold add. cbn [st_trace st_fs]. rewrite !Forall_app.
      split_and!; [done|by apply Forall_singleton, Hone|].
      apply writes_snaps. not_writes. }
    match type of Hso with ?f ?t _ _ => remember t as tr eqn:Htr end.
    clear Htr. inversion Hso; subst;
      repeat match goal with x := _ |- _ => subst x end; cbn [st_trace];
      (apply Forall_app; split; [done|]);
      (apply Forall_cons; split; [by apply Hone|]);
      rewrite ?Forall_app; split_and?; try (by eapply writes_loop);
      repeat (apply Forall_cons; split; [by apply Hone|]); by apply Forall_nil.
Qed.

Lemma outcome_writes (st0 : state) r st :
  outcome w self remote_path local_path st0 r st →
  Forall (writes_to_temp self local_path) (st_trace st0) → Forall (writes_to_temp self local_path) (st_trace st).
Proof.
  intros Ho H0.
  inversion Ho as [st' Hto|e st' d Hto Hn|e st' Hto Hn|e st' Hto Hn]; subst;
    pose proof (try_outcome_writes _ _ _ Hto H0) as Ht; [done|..];
    cbn [st_trace]; rewrite ?Forall_app; split_and?; try done;
    try (apply writes_snaps; not_writes);
    by apply Forall_singleton.
Qed.

Lemma outcome_final (st0 : state) r st :
  outcome w self remote_path local_path st0 r st →
  untouched local_path (st_fs st0) (st_trace st0) →
  (untouched local_path (st_fs st0) (st_trace st) ∧ node_at (st_fs st) F = node_at (st_fs st0) F ∧
   (r = Ret true → ∃ resp n, serve w GET url = Reply resp ∧ expected_size resp = Ret n ∧
                             st_size w (st_fs st) F = Some n)) ∨
  (r = Ret true ∧ committed w self remote_path local_path (st_fs st0) st).
Proof.
  intros Ho H0. assert (T ≠ F) as HTF by apply temp_not_final.
  inversion Ho as [st' Hto|e st' d Hto Hn|e st' Hto Hn|e st' Hto Hn]; subst;
    destruct (try_outcome_final _ _ _ Hto H0) as [(Hu & Hf & Hr)|[? ?]];
    try done; try (by left); try (by right); left; cbn [st_fs st_trace].
  - split_and!; [|by rewrite node_at_delete_ne|done].
    unfold untouched in *. cbn [st_trace]. rewrite !Forall_app. split_and!; [done|..].
    + by apply untouched_snaps.
    + apply Forall_singleton. cbn [snd]. by rewrite node_at_delete_ne.
  - split_and!; [|done..].
    unfold untouched in *. cbn [st_trace]. rewrite !Forall_app. split_and!; [done|].
    by apply untouched_snaps.
  - split_and!; [|done..].
    unfold untouched in *. cbn [st_trace]. rewrite !Forall_app. split_and!; [done|..].
    + by apply untouched_snaps.
    + by apply Forall_singleton.
Qed.

End TransferFacts.

(** ** The path filter *)

(** [Spec.suffix_from_first] finds the first occurrence and nothing else. *)
Lemma suffix_from_first_Some (needle hay suf : str) :
  Spec.suffix_from_first needle hay = Some suf →
  ∃ pre, hay = pre ++ suf ∧ startswith needle suf = true ∧
    ∀ pre' suf', hay = pre' ++ suf' → startswith needle suf' = true →
      (length pre ≤ length pre')%nat.
Proof.
  revert suf; induction hay as [|c hay IH]; intros suf; cbn [Spec.suffix_from_first].
  - destruct (startswith needle []) eqn:Hs; [|done]. intros [= <-].
    exists []. split_and!; [done..|]. intros; simpl; lia.
  - destruct (startswith needle (c :: hay)) eqn:Hs.
    + intros [= <-]. exists []. split_and!; [done..|]. intros; simpl; lia.
    + intros (pre & -> & Hsuf & Hmin)%IH. exists (c :: pre). split_and!; [done..|].
      intros [|c' pre'] suf' Heq Hs'.
      * simpl in Heq. subst suf'. congruence.
      * injection Heq as -> Heq. simpl. apply le_n_S. by eapply Hmin.
Qed.

Lemma suffix_from_first_None (needle hay : str) :
  Spec.suffix_from_first needle hay = None →
  ∀ pre post, hay ≠ pre ++ needle ++ post.
Proof.
  induction hay as [|c hay IH]; cbn [Spec.suffix_from_first].
  - destruct (startswith needle []) eqn:Hs; [done|]. intros _ pre post Heq.
    symmetry in Heq. apply app_eq_nil in Heq as [-> Heq]. 
    apply app_eq_nil in Heq as [-> ->]. done.
  - destruct (startswith needle (c :: hay)) eqn:Hs; [done|]. intros Hn pre post Heq.
    destruct pre as [|c' pre].
    + simpl in Heq. rewrite Heq, startswith_app in Hs. done.
    + injection Heq as -> Heq. by eapply IH.
Qed.

Lemma suffix_from_first_occurs (needle pre post : str) :
  is_Some (Spec.suffix_from_first needle (pre ++ needle ++ post)).
Proof.
  destruct (Spec.suffix_from_first needle (pre ++ needle ++ post)) eqn:H; [done|].
  by eapply suffix_from_first_None in H.
Qed.

(** [Spec.line_of] cuts at the first line feed. *)
Lemma line_of_spec (s : str) :
  ∃ rest, s = Spec.line_of s ++ rest ∧ (LF ∉ Spec.line_of s) ∧
    (rest = [] ∨ ∃ rest', rest = LF :: rest').
Proof.
  induction s as [|c s (rest & Hs & Hlf & Hrest)]; cbn [Spec.line_of].
  - exists []. split_and!; [done|apply not_elem_of_nil|by left].
  - case_bool_decide as Hc.
    + subst c. exists (LF :: s). split_and!; [done|apply not_elem_of_nil|right; by eexists].
    + exists rest. split_and!; [by rewrite Hs at 1| |done].
      apply not_elem_of_cons. split; [congruence|done].
Qed.

(** What [filter_string] computes on a string. *)
Lemma filter_string_run (base_string input_string : str) (st : state) :
  filter_string base_string (Some input_string) st =
  (Ret (Spec.line_from_first ("/"%char :: base_string) input_string), st).
Proof.
  unfold filter_string, try_except, raise, ret.
  rewrite ReFacts.compile_filter_pattern.
  by rewrite ReFacts.search_lits.
Qed.

(** C6, as amended. [filter_string] returns the part of [rawEntry] that
    starts at the first occurrence of ['/'] followed by [baseDir] and stops
    before the first line feed after that occurrence (at the end of the
    string when there is none); every character of [baseDir] is matched
    literally; when ['/'] followed by [baseDir] does not occur the result is
    [None].  The state is left as it was: no log record, no exception. *)
Theorem filter_string_first_occurrence (base_string input_string : str) (st : state) :
  let needle := "/"%char :: base_string in
  ∃ r, filter_string base_string (Some input_string) st = (Ret r, st) ∧
    match r with
    | None => ∀ pre post, input_string ≠ pre ++ needle ++ post
    | Some m =>
        ∃ pre tail rest,
          input_string = pre ++ needle ++ tail ++ rest ∧
          m = needle ++ tail ∧
          (LF ∉ tail) ∧ (rest = [] ∨ ∃ rest', rest = LF :: rest') ∧
          ∀ pre' post', input_string = pre' ++ needle ++ post' →
            (length pre ≤ length pre')%nat
    end.
Proof.
  intros needle. eexists. split; [apply filter_string_run|].
  fold needle. unfold Spec.line_from_first.
  destruct (Spec.suffix_from_first needle input_string) as [suf|] eqn:Hsuf;
    cbn [fmap option_fmap option_map].
  - apply suffix_from_first_Some in Hsuf as (pre & -> & (t & ->)%startswith_prefix & Hmin).
    rewrite drop_app_length.
    destruct (line_of_spec t) as (rest & Ht & Hlf & Hrest).
    exists pre, (Spec.line_of t), rest. split_and!; [by rewrite <- Ht|done..|].
    intros pre' post' Heq. eapply Hmin; [exact Heq|]. apply startswith_app.
  - by apply suffix_from_first_None.
Qed.

(** The second half of C6 holds as stated: an entry without the base
    directory is filtered out. *)
Lemma filter_string_out_of_scope (base_string input_string : str) (st : state) :
  (∀ pre post, input_string ≠ pre ++ base_string ++ post) →
  filter_string base_string (Some input_string) st = (Ret None, st).
Proof.
  intros Hno. rewrite filter_string_run. unfold Spec.line_from_first.
  destruct (Spec.suffix_from_first _ _) as [suf|] eqn:Hs; [|done].
  apply suffix_from_first_Some in Hs as (pre & -> & (t & ->)%startswith_prefix & _).
  destruct (Hno (pre ++ ["/"%char]) t). by rewrite <- !app_assoc.
Qed.

(** C6 fails as stated: the match stops at a line feed, it does not reach
    the end of the string. *)
Lemma filter_string_stops_at_line_feed :
  Spec.suffix_from_first (lit "/data") two_lines = Some (lit "/data/a" ++ LF :: lit "b") ∧
  (filter_string (lit "data") (Some two_lines) (State ∅ [])).1 = Ret (Some (lit "/data/a")).
Proof. split; vm_compute; reflexivity. Qed.

(** C8, as amended. No segment boundary is required after the base
    directory: whatever follows ['/'] and [baseDir] in the entry, the
    result is never [None]; it is the text from the first occurrence of
    ['/'] and [baseDir] in the entry up to the next line feed. *)
Theorem filter_string_no_boundary (base_string pre post : str) (st : state) :
  ∃ m,
    filter_string base_string (Some (pre ++ "/"%char :: base_string ++ post)) st =
      (Ret (Some m), st) ∧
    startswith ("/"%char :: base_string) m = true ∧
    Spec.line_from_first ("/"%char :: base_string)
      (pre ++ "/"%char :: base_string ++ post) = Some m.
Proof.
  rewrite filter_string_run.
  destruct (suffix_from_first_occurs ("/"%char :: base_string) pre post) as [suf Hsuf].
  unfold Spec.line_from_first. cbn [app] in Hsuf. rewrite Hsuf. cbn [fmap option_fmap option_map].
  eexists. split_and!; [done| |done]. apply startswith_app.
Qed.

Example filter_string_sibling (st : state) :
  filter_string (lit "data") (Some (lit "/data2/f.txt")) st = (Ret (Some (lit "/data2/f.txt")), st).
Proof. rewrite filter_string_run. reflexivity. Qed.

(** C8 fails as stated: in [nested_entry] the base directory is the prefix
    of the longer name [data2], but the result neither starts at that
    occurrence nor runs to the end of the entry. *)
Lemma filter_string_not_that_suffix :
  nested_entry = lit "/data/x" ++ lit "/data" ++ (lit "2/f" ++ LF :: lit "g") ∧
  (filter_string (lit "data") (Some nested_entry) (State ∅ [])).1
    = Ret (Some (lit "/data/x/data2/f")) ∧
  (filter_string (lit "data") (Some nested_entry) (State ∅ [])).1
    ≠ Ret (Some (lit "/data" ++ (lit "2/f" ++ LF :: lit "g"))).
Proof. split_and!; [reflexivity|vm_compute; reflexivity|vm_compute; congruence]. Qed.

(** ** Directory listings *)

(** C5, as amended. For a reply whose status is not 207, [list_directory]
    fails only when the status is in 400..599: it then logs an error that
    names the remote folder and the cause and raises the [HTTPError] again;
    for every other status it returns the empty list without any error.
    When the session gives up on the request, the [RequestException] is
    logged in the same way and raised again. *)
Theorem list_directory_non_207 (w : world) (self : downloader) (remote_folder : str)
    (st : state) :
  let url := base_url self ++ remote_folder in
  (∀ resp,
     serve w PROPFIND url = Reply resp →
     status_code resp ≠ 207 →
     list_directory w self remote_folder st =
       if (400 <=? status_code resp) && (status_code resp <? 600)
       then (Raise (HTTPError (status_code resp)),
             State (st_fs st)
               (st_trace st ++
                snaps (st_fs st)
                  [EvRequest PROPFIND url;
                   EvLog ERROR (MsgListFailed remote_folder (HTTPError (status_code resp)))]))
       else (Ret [], add st (EvRequest PROPFIND url))) ∧
  (∀ cause,
     serve w PROPFIND url = NoReply cause →
     list_directory w self remote_folder st =
       (Raise (RequestException cause),
        State (st_fs st)
          (st_trace st ++
           snaps (st_fs st)
             [EvRequest PROPFIND url;
              EvLog ERROR (MsgListFailed remote_folder (RequestException cause))]))).
Proof.
  intros url. subst url. split.
  - intros resp Hserve Hstatus.
    unfold list_directory, try_except, request, raise_for_status, log.
    unfold emit, bind, ret, raise. cbn beta iota zeta delta [st_fs st_trace fst snd].
    rewrite Hserve. cbn beta iota zeta delta [st_fs st_trace fst snd].
    destruct (_ && _); cbn beta iota zeta delta [st_fs st_trace fst snd is_request_exception].
    + unfold snaps. cbn [map]. by rewrite <- app_assoc.
    + apply Z.eqb_neq in Hstatus. by rewrite Hstatus.
  - intros cause Hserve.
    unfold list_directory, try_except, request, raise_for_status, log.
    unfold emit, bind, ret, raise. cbn beta iota zeta delta [st_fs st_trace fst snd].
    rewrite Hserve. cbn beta iota zeta delta [st_fs st_trace fst snd is_request_exception].
    unfold snaps. cbn [map]. by rewrite <- app_assoc.
Qed.

Lemma list_directory_non_207_witness :
  list_directory (world_status 404) the_downloader (lit "/data/") (State ∅ []) =
    (Raise (HTTPError 404),
     State ∅
       (snaps ∅ [EvRequest PROPFIND (lit "http://host/data/");
                 EvLog ERROR (MsgListFailed (lit "/data/") (HTTPError 404))])).
Proof.
  apply (proj1 (list_directory_non_207 (world_status 404) the_downloader (lit "/data/")
                  (State ∅ [])) (Response 404 None None [] None)).
  - reflexivity.
  - vm_compute. discriminate.
Defined.

(** On status 207 the parsed entries are returned. *)
Lemma list_directory_207 (w : world) (self : downloader) (remote_folder : str)
    (st : state) (resp : response) (l : list (option str)) :
  serve w PROPFIND (base_url self ++ remote_folder) = Reply resp →
  status_code resp = 207 →
  hrefs resp = Some l →
  list_directory w self remote_folder st =
    (Ret l, add st (EvRequest PROPFIND (base_url self ++ remote_folder))).
Proof.
  intros Hserve Hstatus Hhrefs.
  unfold list_directory, try_except, request, raise_for_status, log.
  unfold emit, bind, ret, raise. cbn beta iota zeta delta [st_fs st_trace fst snd].
  rewrite Hserve. cbn beta iota zeta delta [st_fs st_trace fst snd].
  rewrite Hstatus. cbn beta iota zeta delta [st_fs st_trace fst snd].
  by rewrite Hhrefs.
Qed.

(** C5 fails as stated: a reply with status 200 is not an error, the
    listing is empty. *)
Lemma list_directory_200_is_empty :
  list_directory (world_status 200) the_downloader (lit "/data/") (State ∅ []) =
    (Ret [], State ∅ [(EvRequest PROPFIND (lit "http://host/data/"), ∅)]).
Proof. reflexivity. Qed.

(** ** Construction *)




Lemma run_outcome (w : world) (self : downloader) (remote_path local_path : str) (fs0 : fsT) :
  outcome w self remote_path local_path (State fs0 [])
    (run (download_file w self remote_path local_path) fs0).1
    (run (download_file w self remote_path local_path) fs0).2.
Proof. apply download_file_outcome. unfold run. by destruct (download_file _ _ _ _ _). Qed.

(** C1. Integrity of [download_file]: the temporary path differs from the
    final path and every write goes to it; a call that returns [True]
    leaves at the final path an entry whose size is the expected size of
    the transfer; and at every moment of the call the final path holds
    what it held before the call, until the rename that follows the size
    check of the temporary file puts the complete body there. *)
Theorem download_file_integrity (w : world) (self : downloader)
    (remote_path local_path : str) (fs0 : fsT) :
  let final := Path local_path in
  let temp := Path (temp_path_of self local_path) in
  let out := run (download_file w self remote_path local_path) fs0 in
  temp ≠ final ∧
  Forall (λ x, ∀ p, x.1 = EvFs OpWrite p → p = temp) (st_trace out.2) ∧
  (out.1 = Ret true →
   ∃ resp n, serve w GET (base_url self ++ remote_path) = Reply resp ∧
     expected_size resp = Ret n ∧ st_size w (st_fs out.2) final = Some n) ∧
  (Forall (λ x, node_at x.2 final = node_at fs0 final) (st_trace out.2) ∨
   ∃ resp n pre fs3 fs4,
     serve w GET (base_url self ++ remote_path) = Reply resp ∧
     expected_size resp = Ret n ∧
     st_fs out.2 = fs4 ∧
     st_trace out.2 =
       pre ++ [(EvFs OpStat temp, fs3); (EvFs OpRename final, fs4);
               (EvLog INFO (MsgCompleted local_path n), fs4)] ∧
     Forall (λ x, node_at x.2 final = node_at fs0 final) pre ∧
     node_at fs3 final = node_at fs0 final ∧
     st_size w fs3 temp = Some n ∧
     node_at fs4 final = Some (File (concat (chunks resp))) ∧
     st_size w fs4 final = Some n).
Proof.
  intros final temp out. pose proof (run_outcome w self remote_path local_path fs0) as Ho.
  fold out in Ho. split_and!.
  - apply temp_not_final.
  - eapply (outcome_writes _ _ _ _ _ _ _ Ho). by apply Forall_nil.
  - intros Hr. destruct (outcome_final _ _ _ _ _ _ _ Ho) as [(_ & _ & H)|[_ H]].
    + by apply Forall_nil.
    + by apply H.
    + destruct H as (resp & n & pre & fs3 & fs4 & ? & ? & Hfs & ? & ? & ? & ? & ? & ?).
      exists resp, n. rewrite Hfs. done.
  - destruct (outcome_final _ _ _ _ _ _ _ Ho) as [(H & _ & _)|[_ H]].
    + by apply Forall_nil.
    + by left.
    + by right.
Qed.

Lemma download_file_integrity_witness :
  ∃ resp n, serve world_three GET (lit "http://host/data/a.txt") = Reply resp ∧
    expected_size resp = Ret n ∧
    st_size world_three
      (st_fs (run (download_file world_three the_downloader (lit "/data/a.txt")
                     (lit "out/a.txt")) ∅).2)
      (Path (lit "out/a.txt")) = Some n.
Proof.
  apply (download_file_integrity world_three the_downloader (lit "/data/a.txt")
           (lit "out/a.txt") ∅).
  vm_compute. reflexivity.
Defined.

Section TransferRuns.

Context (w : world) (self : downloader) (remote_path local_path : str).

Local Abbreviation url := (base_url self ++ remote_path).
Local Abbreviation F := (Path local_path).
Local Abbreviation T := (Path (temp_path_of self local_path)).
Local Abbreviation Pa := (parent (Path local_path)).

(** The [try] block never turns the temporary path into a directory. *)
Lemma try_outcome_temp_dir (st0 : state) r st :
  try_outcome w self remote_path local_path st0 r st →
  is_dir (st_fs st) T = true → is_dir (st_fs st0) T = true.
Proof.
  intros Hto. unfold is_dir.
  inversion Hto as [e Hh|resp n e fs1 Hh Hmk|resp n fs1 Hh Hmk Hsz
    |resp n fs1 Hh Hmk Hsz Hop|resp n fs1 r' st' Hh Hmk Hsz Hop Hso]; subst;
    cbn [st_fs add]; try done;
    try (by rewrite (mkdir_keeps_temp self local_path _ _ _ Hmk)).
  apply orb_false_elim in Hop as [HT%is_dir_not_root _].
  inversion Hso; subst; repeat match goal with x := _ |- _ => subst x end;
    cbn [st_fs]; try (by rewrite node_at_insert_eq).
  rewrite node_at_insert_ne by apply not_eq_sym, temp_not_final.
  by rewrite node_at_delete_eq.
Qed.

Lemma transfer_head_intro resp n :
  serve w GET url = Reply resp →
  (400 <=? status_code resp) && (status_code resp <? 600) = false →
  expected_size resp = Ret n →
  transfer_head w self remote_path = Ret (resp, n).
Proof. intros Hs Hst He. unfold transfer_head. by rewrite Hs, Hst, He. Qed.

(** The skip path, step by step. *)
Lemma skip_path_run (st0 : state) resp n fs1 :
  transfer_head w self remote_path = Ret (resp, n) →
  mkdir_chain (st_fs st0) (chain Pa) = (Ret (), fs1) →
  st_size w fs1 F = Some n →
  download_file w self remote_path local_path st0 =
    (Ret true,
     State fs1 (st_trace st0 ++ (EvRequest GET url, st_fs st0) ::
                snaps fs1 [EvFs OpMkdir Pa; EvFs OpExists F; EvFs OpStat F;
                           EvLog INFO (MsgAlreadyComplete local_path n)])).
Proof.
  intros Hh Hmk Hsz.
  destruct (download_file w self remote_path local_path st0) as [r st] eqn:Hrun.
  apply download_file_outcome in Hrun.
  assert (∀ r' st', try_outcome w self remote_path local_path st0 r' st' →
    r' = Ret true ∧
    st' = State fs1 (st_trace st0 ++ (EvRequest GET url, st_fs st0) ::
                snaps fs1 [EvFs OpMkdir Pa; EvFs OpExists F; EvFs OpStat F;
                           EvLog INFO (MsgAlreadyComplete local_path n)])) as Hdet.
  { intros r' st' Hto.
    inversion Hto as [e Hh'|resp' n' e fs1' Hh' Hmk'|resp' n' fs1' Hh' Hmk' Hsz'
      |resp' n' fs1' Hh' Hmk' Hsz' Hop|resp' n' fs1' r'' st'' Hh' Hmk' Hsz' Hop Hso];
      subst; rewrite Hh in Hh'; try done; injection Hh' as <- <-;
      rewrite Hmk in Hmk'; try done; injection Hmk' as <-; try done.
    split; [done|]. unfold add. cbn [st_fs st_trace]. by rewrite <- app_assoc. }
  inversion Hrun as [st' Hto|e st' d Hto Hn|e st' Hto Hn|e st' Hto Hn]; subst;
    destruct (Hdet _ _ Hto) as [? ?]; try done. by subst.
Qed.


End TransferRuns.



(** The only exception that passes the boundary is the one of [os.remove]
    on a temporary path that is a directory. *)
Lemma download_file_raises_only_remove (w : world) (self : downloader)
    (remote_path local_path : str) (fs0 : fsT) (e : exn) :
  let temp := Path (temp_path_of self local_path) in
  (run (download_file w self remote_path local_path) fs0).1 = Raise e →
  e = OSError OpRemove temp ∧ is_dir fs0 temp = true.
Proof.
  intros temp Hr. subst temp.
  destruct (run _ _) as [r st] eqn:Hrun. apply download_file_outcome in Hrun.
  cbn [fst] in Hr. subst r.
  inversion Hrun as [| | |e' st' Hto Hn]; subst. split; [done|].
  apply try_outcome_temp_dir in Hto; [done|]. unfold is_dir. by rewrite Hn.
Qed.



Lemma fs_one_file_wf : fs_wf fs_one_file.
Proof.
  intros p n Hn. unfold node_at in Hn. destruct (is_root p) eqn:Hroot.
  - destruct p as [a [|? ?]]; [|done]. reflexivity.
  - unfold fs_one_file in Hn.
    apply lookup_insert_Some in Hn as [[<- _]|[_ Hn]]; [reflexivity|].
    apply lookup_singleton_Some in Hn as [<- _]. reflexivity.
Qed.







(** ** Folders *)




Lemma raises_only_log (P : exn → Prop) l msg : raises_only P (log l msg).
Proof. by intros st e. Qed.





Lemma submit_run {A} (task : M A) (st : state) :
  ∃ r, submit task st = (Ret r, (task st).2) ∧ r = (task st).1.
Proof. unfold submit. destruct (task st) as [r st']. by exists r. Qed.




Section FolderFacts.

Context (w : world) (self : downloader).

Local Abbreviation ledger := (ledger_path self).








End FolderFacts.



(** What the ledger holds after that run: the path of the truncated file. *)
Example truncated_file_in_ledger :
  map_to_list
    (st_fs (download_folder world_truncated the_downloader 1
              (lit "/data/") (lit "out") (lit "data") (State ∅ [])).2) =
  [(Path (lit "out"), Dir);
   (Path (lit "failed_downloads_no_job.txt"), File (encode (lit "out/a.txt" ++ [LF])));
   (Path (lit "out/b.txt"), File [x01; x02; x03])].
Proof. vm_compute. reflexivity. Qed.


(** * Further properties *)

(** ** One transfer: what is left behind *)

Section TransferEffects.

Context (w : world) (self : downloader) (remote_path local_path : str).

Local Abbreviation url := (base_url self ++ remote_path).
Local Abbreviation F := (Path local_path).
Local Abbreviation T := (Path (temp_path_of self local_path)).
Local Abbreviation Pa := (parent (Path local_path)).

Lemma temp_not_root : is_root T = false.
Proof.
  unfold is_root. apply bool_decide_eq_false_2. intros H.
  apply (temp_parts_not_prefix local_path (job_id self)).
  unfold Path, temp_path_of in H. cbn [snd] in H. rewrite H. apply prefix_nil.
Qed.



End TransferEffects.



(** X2. A call that does not return [True] leaves the final path as it
    was: an older file there is never damaged by a failed transfer. *)
Theorem download_file_failure_keeps_final (w : world) (self : downloader)
    (remote_path local_path : str) (fs0 : fsT) :
  let out := run (download_file w self remote_path local_path) fs0 in
  out.1 ≠ Ret true →
  node_at (st_fs out.2) (Path local_path) = node_at fs0 (Path local_path).
Proof.
  intros out Hr. subst out.
  destruct (outcome_final w self remote_path local_path _ _ _
              (run_outcome w self remote_path local_path fs0)) as [(_ & H & _)|[H _]];
    [by apply Forall_nil|done|done].
Qed.

Lemma download_file_failure_keeps_final_witness :
  node_at (st_fs (run (download_file world_down the_downloader (lit "/data/a.txt")
                         (lit "out/a.txt")) fs_one_file).2) (Path (lit "out/a.txt"))
  = node_at fs_one_file (Path (lit "out/a.txt")).
Proof.
  apply (download_file_failure_keeps_final world_down the_downloader (lit "/data/a.txt")
           (lit "out/a.txt") fs_one_file).
  vm_compute. discriminate.
Defined.

Section TransferResults.

Context (w : world) (self : downloader) (remote_path local_path : str).

Local Abbreviation url := (base_url self ++ remote_path).
Local Abbreviation F := (Path local_path).
Local Abbreviation T := (Path (temp_path_of self local_path)).
Local Abbreviation Pa := (parent (Path local_path)).

(** The two ways to [True]. *)
Lemma outcome_true (st0 : state) st :
  outcome w self remote_path local_path st0 (Ret true) st →
  ∃ resp n, serve w GET url = Reply resp ∧ expected_size resp = Ret n ∧
    ((st_size w (st_fs st0) F = Some n ∧
      st_fs st = (mkdir_chain (st_fs st0) (chain Pa)).2) ∨
     (st_size w (st_fs st0) F ≠ Some n ∧ is_root F = false ∧
      Z.of_nat (length (concat (chunks resp))) = n ∧
      st_fs st = <[F := File (concat (chunks resp))]>
                   (delete T (mkdir_chain (st_fs st0) (chain Pa)).2))).
Proof.
  intros Ho. inversion Ho as [st' Hto| | |]; subst.
  inversion Hto as [|resp n e fs1 Hh Hmk|resp n fs1 Hh Hmk Hsz
    |resp n fs1 Hh Hmk Hsz Hop|resp n fs1 r' st' Hh Hmk Hsz Hop Hso]; subst;
    apply transfer_head_Ret in Hh as [Hs He]; exists resp, n; (split; [done|]); (split; [done|]).
  - left. rewrite Hmk. split; [|done].
    unfold st_size in *. by rewrite <- (mkdir_keeps_final local_path _ _ _ Hmk).
  - right. rewrite Hmk. cbn [snd].
    assert (st_size w (st_fs st0) F ≠ Some n) as Hsz0.
    { unfold st_size in *. by rewrite <- (mkdir_keeps_final local_path _ _ _ Hmk). }
    inversion Hso; subst; repeat match goal with x := _ |- _ => subst x end.
    match goal with H : _ || _ = false |- _ =>
      apply orb_false_elim in H as [HF%is_dir_not_root _] end.
    split_and!; [done..|]. cbn [st_fs].
    f_equal. apply map_eq. intros q. destruct (decide (q = T)) as [->|Hq].
    + by rewrite !lookup_delete_eq.
    + by rewrite !lookup_delete_ne, lookup_insert_ne.
Qed.

End TransferResults.

(** X3. What a [True] means.  Either an entry of the expected size was
    already at the final path and only the parent directories were made,
    or the final path now holds a file with exactly the body received,
    the size check has passed and nothing is left at the temporary path. *)
Theorem download_file_success (w : world) (self : downloader)
    (remote_path local_path : str) (fs0 : fsT) :
  let final := Path local_path in
  let temp := Path (temp_path_of self local_path) in
  let out := run (download_file w self remote_path local_path) fs0 in
  out.1 = Ret true →
  ∃ resp n,
    serve w GET (base_url self ++ remote_path) = Reply resp ∧
    expected_size resp = Ret n ∧
    ((st_size w fs0 final = Some n ∧
      node_at (st_fs out.2) final = node_at fs0 final ∧
      node_at (st_fs out.2) temp = node_at fs0 temp) ∨
     (st_size w fs0 final ≠ Some n ∧
      Z.of_nat (length (concat (chunks resp))) = n ∧
      node_at (st_fs out.2) final = Some (File (concat (chunks resp))) ∧
      node_at (st_fs out.2) temp = None)).
Proof.
  intros final temp out Hr. subst final temp out.
  pose proof (run_outcome w self remote_path local_path fs0) as Ho.
  destruct (run _ fs0) as [r st]. cbn [fst snd] in *. subst r.
  destruct (outcome_true _ _ _ _ _ _ Ho) as (resp & n & Hs & He & [[Hsz Hfs]|(Hsz & HF & Hlen & Hfs)]);
    exists resp, n; (split; [done|]); (split; [done|]); cbn [st_fs] in *.
  - left. rewrite Hfs. split_and!; [done| |].
    + apply mkdir_chain_node_at, self_not_on_parent_chain.
    + apply mkdir_chain_node_at, temp_not_on_chain.
  - right. rewrite Hfs. split_and!; [done..| |].
    + by apply node_at_insert_eq.
    + rewrite node_at_insert_ne by (apply not_eq_sym, temp_not_final).
      apply node_at_delete_eq, temp_not_root.
Qed.

Lemma download_file_success_witness :
  ∃ resp n,
    serve world_three GET (lit "http://host/data/a.txt") = Reply resp ∧
    expected_size resp = Ret n ∧
    ((st_size world_three ∅ (Path (lit "out/a.txt")) = Some n ∧
      node_at (st_fs (run (download_file world_three the_downloader (lit "/data/a.txt")
                             (lit "out/a.txt")) ∅).2) (Path (lit "out/a.txt"))
        = node_at ∅ (Path (lit "out/a.txt")) ∧
      node_at (st_fs (run (download_file world_three the_downloader (lit "/data/a.txt")
                             (lit "out/a.txt")) ∅).2)
              (Path (temp_path_of the_downloader (lit "out/a.txt")))
        = node_at ∅ (Path (temp_path_of the_downloader (lit "out/a.txt")))) ∨
     (st_size world_three ∅ (Path (lit "out/a.txt")) ≠ Some n ∧
      Z.of_nat (length (concat (chunks resp))) = n ∧
      node_at (st_fs (run (download_file world_three the_downloader (lit "/data/a.txt")
                             (lit "out/a.txt")) ∅).2) (Path (lit "out/a.txt"))
        = Some (File (concat (chunks resp))) ∧
      node_at (st_fs (run (download_file world_three the_downloader (lit "/data/a.txt")
                             (lit "out/a.txt")) ∅).2)
              (Path (temp_path_of the_downloader (lit "out/a.txt"))) = None)).
Proof.
  apply (download_file_success world_three the_downloader (lit "/data/a.txt")
           (lit "out/a.txt") ∅).
  vm_compute. reflexivity.
Defined.

Section TransferErrors.

Context (w : world) (self : downloader) (remote_path local_path : str).

Local Abbreviation url := (base_url self ++ remote_path).
Local Abbreviation F := (Path local_path).
Local Abbreviation T := (Path (temp_path_of self local_path)).
Local Abbreviation Pa := (parent (Path local_path)).

Lemma transfer_head_status resp n :
  transfer_head w self remote_path = Ret (resp, n) →
  (400 <=? status_code resp) && (status_code resp <? 600) = false.
Proof.
  unfold transfer_head. destruct (serve w GET url) as [|r]; [done|].
  destruct (_ && _) eqn:Hst; [done|]. destruct (expected_size r); [|done].
  by intros [= <- _].
Qed.

(** A run whose request gives no expected size. *)
Lemma outcome_no_head (st0 : state) r st :
  outcome w self remote_path local_path st0 r st →
  (∀ resp n, transfer_head w self remote_path ≠ Ret (resp, n)) →
  is_dir (st_fs st0) T = false →
  ∃ e, transfer_head w self remote_path = Raise e ∧
    r = Ret false ∧ st_fs st = delete T (st_fs st0) ∧
    map fst (st_trace st) =
      map fst (st_trace st0) ++
      EvRequest GET url :: EvLog ERROR (MsgDownloadFailed remote_path e) :: EvFs OpExists T ::
      (if is_file (st_fs st0) T then [EvFs OpRemove T] else []).
Proof.
  intros Ho Hhead Hdir.
  assert (∀ r' st', try_outcome w self remote_path local_path st0 r' st' →
            ∃ e, transfer_head w self remote_path = Raise e ∧ r' = Raise e ∧
                 st' = add st0 (EvRequest GET url)) as Htry.
  { intros r' st' Hto. inversion Hto; subst; try (by edestruct Hhead). by eexists. }
  unfold is_dir, is_file in *.
  inversion Ho as [st' Hto|e st' d Hto Hn|e st' Hto Hn|e st' Hto Hn]; subst;
    destruct (Htry _ _ Hto) as (e' & He' & Hr & ->); try done;
    injection Hr as ->; cbn [st_fs st_trace add] in *; rewrite Hn in *; try done;
    exists e'; split_and!; try done.
  - rewrite !map_app. unfold snaps. cbn [map fst app]. by rewrite <- !app_assoc.
  - symmetry. apply delete_id. by rewrite <- node_at_lookup by apply temp_not_root.
  - rewrite !map_app. unfold snaps. cbn [map fst app]. by rewrite <- !app_assoc.
Qed.

(** A run over a directory that sits at the final path. *)
Lemma outcome_final_dir (st0 : state) r st :
  outcome w self remote_path local_path st0 r st →
  node_at (st_fs st0) F = Some Dir →
  node_at (st_fs st) F = Some Dir ∧
  (r = Ret true →
   ∃ resp, transfer_head w self remote_path = Ret (resp, dir_st_size w)).
Proof.
  intros Ho Hdir.
  assert (T ≠ F) as HTF by apply temp_not_final.
  assert (∀ r' st', try_outcome w self remote_path local_path st0 r' st' →
            node_at (st_fs st') F = Some Dir ∧
            (r' = Ret true →
             ∃ resp, transfer_head w self remote_path = Ret (resp, dir_st_size w))) as Htry.
  { intros r' st' Hto.
    inversion Hto as [e Hh|resp n e fs1 Hh Hmk|resp n fs1 Hh Hmk Hsz
      |resp n fs1 Hh Hmk Hsz Hop|resp n fs1 r'' st'' Hh Hmk Hsz Hop Hso]; subst;
      cbn [st_fs add]; try (apply (mkdir_keeps_final local_path) in Hmk as Hk);
      try (rewrite Hk); try done.
    - split; [done|]. intros _. unfold st_size in Hsz. rewrite Hk, Hdir in Hsz.
      injection Hsz as <-. by exists resp.
    - inversion Hso; subst; repeat match goal with x := _ |- _ => subst x end;
        cbn [st_fs]; rewrite ?node_at_insert_ne by done; rewrite ?Hk; try done.
      match goal with H : _ || _ = false |- _ =>
        apply orb_false_elim in H as [HF _] end.
      unfold is_dir in HF. rewrite node_at_insert_ne, Hk, Hdir in HF by done. done. }
  inversion Ho as [st' Hto|e st' d Hto Hn|e st' Hto Hn|e st' Hto Hn]; subst;
    destruct (Htry _ _ Hto) as [Hnode Hres]; cbn [st_fs];
    rewrite ?node_at_delete_ne by done; done.
Qed.

End TransferErrors.

(** X4. When the request gives nothing to download (no reply, an error
    status, an expected size that cannot be read), the call returns
    [False] without creating any directory: the file system is the one
    before the call, less a stale temporary file. *)
Theorem download_file_request_failure (w : world) (self : downloader)
    (remote_path local_path : str) (fs0 : fsT) :
  let url := base_url self ++ remote_path in
  let temp := Path (temp_path_of self local_path) in
  let out := run (download_file w self remote_path local_path) fs0 in
  (∀ resp n,
     serve w GET url = Reply resp →
     (400 <=? status_code resp) && (status_code resp <? 600) = false →
     expected_size resp ≠ Ret n) →
  is_dir fs0 temp = false →
  out.1 = Ret false ∧
  st_fs out.2 = delete temp fs0 ∧
  ∃ e, map fst (st_trace out.2) =
         EvRequest GET url :: EvLog ERROR (MsgDownloadFailed remote_path e) ::
         EvFs OpExists temp :: (if is_file fs0 temp then [EvFs OpRemove temp] else []).
Proof.
  intros url temp out Hbad Hdir. subst url temp out.
  destruct (outcome_no_head w self remote_path local_path _ _ _
              (run_outcome w self remote_path local_path fs0)) as (e & _ & Hr & Hfs & Htr);
    [|done|split_and!; [done|done|by exists e]].
  intros resp n Hh. pose proof (transfer_head_status _ _ _ _ _ Hh) as Hst.
  apply transfer_head_Ret in Hh as [Hs He]. by eapply Hbad.
Qed.

Lemma download_file_request_failure_witness :
  (run (download_file world_down the_downloader (lit "/data/a.txt") (lit "out/a.txt"))
     fs_one_file).1 = Ret false ∧
  st_fs (run (download_file world_down the_downloader (lit "/data/a.txt") (lit "out/a.txt"))
           fs_one_file).2
    = delete (Path (temp_path_of the_downloader (lit "out/a.txt"))) fs_one_file ∧
  ∃ e, map fst (st_trace (run (download_file world_down the_downloader (lit "/data/a.txt")
                                 (lit "out/a.txt")) fs_one_file).2) =
         EvRequest GET (lit "http://host/data/a.txt") ::
         EvLog ERROR (MsgDownloadFailed (lit "/data/a.txt") e) ::
         EvFs OpExists (Path (temp_path_of the_downloader (lit "out/a.txt"))) ::
         (if is_file fs_one_file (Path (temp_path_of the_downloader (lit "out/a.txt")))
          then [EvFs OpRemove (Path (temp_path_of the_downloader (lit "out/a.txt")))]
          else []).
Proof.
  apply (download_file_request_failure world_down the_downloader (lit "/data/a.txt")
           (lit "out/a.txt") fs_one_file).
  - intros resp n H. vm_compute in H. discriminate.
  - reflexivity.
Defined.

(** X5. A directory at the final path is never replaced.  The call
    returns [True] exactly when the size the system reports for the
    directory happens to be the expected size, and then transfers
    nothing; otherwise it returns [False]. *)
Theorem download_file_directory_at_final (w : world) (self : downloader)
    (remote_path local_path : str) (fs0 : fsT) :
  let final := Path local_path in
  let out := run (download_file w self remote_path local_path) fs0 in
  fs_wf fs0 →
  node_at fs0 final = Some Dir →
  node_at (st_fs out.2) final = Some Dir ∧
  (out.1 = Ret true ↔
   ∃ resp, serve w GET (base_url self ++ remote_path) = Reply resp ∧
     (400 <=? status_code resp) && (status_code resp <? 600) = false ∧
     expected_size resp = Ret (dir_st_size w)) ∧
  (out.1 = Ret true →
   out.2 = State fs0 (skip_trace self remote_path local_path fs0 fs0 (dir_st_size w))).
Proof.
  intros final out Hwf Hdir. subst final out.
  destruct (outcome_final_dir w self remote_path local_path _ _ _
              (run_outcome w self remote_path local_path fs0) Hdir) as [Hnode Htrue].
  assert ((∃ resp, serve w GET (base_url self ++ remote_path) = Reply resp ∧
             (400 <=? status_code resp) && (status_code resp <? 600) = false ∧
             expected_size resp = Ret (dir_st_size w)) →
          run (download_file w self remote_path local_path) fs0 =
            (Ret true, State fs0 (skip_trace self remote_path local_path fs0 fs0 (dir_st_size w))))
    as Hskip.
  { intros (resp & Hs & Hst & He). unfold run, skip_trace.
    rewrite (skip_path_run w self remote_path local_path _ resp (dir_st_size w) fs0); [done|..].
    - by apply transfer_head_intro.
    - apply mkdir_chain_noop. intros q Hq. eapply wf_parent_chain; [done| |done].
      by eexists.
    - unfold st_size. by rewrite Hdir. }
  assert (out_true : (run (download_file w self remote_path local_path) fs0).1 = Ret true →
            ∃ resp, serve w GET (base_url self ++ remote_path) = Reply resp ∧
              (400 <=? status_code resp) && (status_code resp <? 600) = false ∧
              expected_size resp = Ret (dir_st_size w)).
  { intros (resp & Hh)%Htrue. exists resp.
    pose proof (transfer_head_status _ _ _ _ _ Hh).
    apply transfer_head_Ret in Hh as [? ?]. done. }
  split_and!; [done| |].
  - split; [done|]. intros H. by rewrite (Hskip H).
  - intros H%out_true. by rewrite (Hskip H).
Qed.

Lemma download_file_directory_at_final_witness :
  (run (download_file world_4096 the_downloader (lit "/data/out") (lit "out")) fs_one_file).1
  = Ret true.
Proof.
  apply (download_file_directory_at_final world_4096 the_downloader (lit "/data/out")
           (lit "out") fs_one_file fs_one_file_wf).
  - reflexivity.
  - exists (Response 200 (Some (lit "4096")) None [[x01]] None). by split_and!.
Defined.

(** ** Listings: effects *)

(** X6. [list_directory] sends one request and never touches the file
    system.  It logs only what it raises again, a [RequestException]; a 207
    reply whose body cannot be parsed raises [ParseError], which is neither
    caught nor logged. *)
Theorem list_directory_effects (w : world) (self : downloader) (remote_folder : str)
    (st : state) :
  let url := base_url self ++ remote_folder in
  let out := list_directory w self remote_folder st in
  st_fs out.2 = st_fs st ∧
  (∃ logged,
     st_trace out.2 = st_trace st ++ snaps (st_fs st) (EvRequest PROPFIND url :: logged) ∧
     match out.1 with
     | Raise e =>
         if is_request_exception e
         then logged = [EvLog ERROR (MsgListFailed remote_folder e)]
         else logged = []
     | Ret _ => logged = []
     end) ∧
  (∀ resp, serve w PROPFIND url = Reply resp → status_code resp = 207 →
     hrefs resp = None → out.1 = Raise ParseError).
Proof.
  intros url out. subst url out.
  unfold list_directory, try_except, request, raise_for_status, log.
  unfold emit, bind, ret, raise. cbn beta iota zeta delta [st_fs st_trace fst snd].
  destruct (serve w PROPFIND (base_url self ++ remote_folder)) as [cause|resp] eqn:Hserve;
    cbn beta iota zeta delta [st_fs st_trace fst snd is_request_exception].
  { split_and!; [done| |done]. eexists. split; [|done].
    unfold snaps. cbn [map]. by rewrite <- app_assoc. }
  destruct (_ && _) eqn:Hstatus;
    cbn beta iota zeta delta [st_fs st_trace fst snd is_request_exception].
  { split_and!; [done| |].
    - eexists. split; [|done]. unfold snaps. cbn [map]. by rewrite <- app_assoc.
    - intros resp' [= <-] H207. rewrite H207 in Hstatus. done. }
  destruct (status_code resp =? 207) eqn:H207.
  - destruct (hrefs resp) as [l|] eqn:Hh;
      cbn beta iota zeta delta [st_fs st_trace fst snd is_request_exception].
    + split_and!; [done| |].
      * by exists [].
      * intros resp' [= <-] _. congruence.
    + split_and!; [done| |done]. by exists [].
  - cbn beta iota zeta delta [st_fs st_trace fst snd is_request_exception].
    split_and!; [done| |].
    + by exists [].
    + intros resp' [= <-] H. rewrite H in H207. done.
Qed.

Lemma list_directory_effects_witness :
  (list_directory world_bad_xml the_downloader (lit "/data/") (State ∅ [])).1
  = Raise ParseError.
Proof.
  apply (list_directory_effects world_bad_xml the_downloader (lit "/data/") (State ∅ []))
    with (resp := Response 207 None None [] None); reflexivity.
Defined.

(** ** The path filter: further facts *)

Lemma line_of_idemp (s : str) : Spec.line_of (Spec.line_of s) = Spec.line_of s.
Proof.
  induction s as [|c s IH]; [done|]. cbn [Spec.line_of].
  case_bool_decide as Hc; [done|]. cbn [Spec.line_of].
  rewrite bool_decide_eq_false_2 by done. by rewrite IH.
Qed.

Lemma line_from_first_idemp (needle s m : str) :
  Spec.line_from_first needle s = Some m → Spec.line_from_first needle m = Some m.
Proof.
  unfold Spec.line_from_first.
  destruct (Spec.suffix_from_first needle s) as [suf|] eqn:Hsuf; [|done].
  cbn [fmap option_fmap option_map]. intros [= <-].
  assert (Spec.suffix_from_first needle (needle ++ Spec.line_of (drop (length needle) suf))
          = Some (needle ++ Spec.line_of (drop (length needle) suf))) as ->.
  { destruct (needle ++ _) as [|c t] eqn:Ht; cbn [Spec.suffix_from_first];
      rewrite <- Ht, startswith_app; by rewrite ?Ht. }
  cbn [fmap option_fmap option_map]. by rewrite drop_app_length, line_of_idemp.
Qed.

(** X7. Filtering is idempotent: an entry that came out of [filter_string]
    passes through it unchanged. *)
Theorem filter_string_idempotent (base_string input_string m : str) (st : state) :
  (filter_string base_string (Some input_string) st).1 = Ret (Some m) →
  filter_string base_string (Some m) st = (Ret (Some m), st).
Proof.
  rewrite !filter_string_run. cbn [fst]. intros [= H].
  by rewrite (line_from_first_idemp _ _ _ H).
Qed.

Lemma filter_string_idempotent_witness :
  filter_string (lit "data") (Some (lit "/data/a")) (State ∅ [])
  = (Ret (Some (lit "/data/a")), State ∅ []).
Proof.
  apply (filter_string_idempotent (lit "data") two_lines (lit "/data/a") (State ∅ [])).
  vm_compute. reflexivity.
Defined.

(** X8. The pattern of [filter_string] always compiles: whatever the base
    directory, no [re.error] is raised and nothing is logged; the only
    exception is the [TypeError] of an entry that is [None] (an empty
    [href] element). *)
Theorem filter_string_never_regex_error (base_string : str) (input_string : option str)
    (st : state) :
  (filter_string base_string input_string st).2 = st ∧
  (filter_string base_string input_string st).1 ≠ Raise re_error ∧
  ((filter_string base_string input_string st).1 = Raise TypeError ↔ input_string = None).
Proof.
  destruct input_string as [s|].
  - rewrite filter_string_run. by split_and!.
  - unfold filter_string, try_except, raise, ret.
    rewrite ReFacts.compile_filter_pattern. by split_and!.
Qed.

(** ** Construction: what the object holds *)









(** ** Folders: the ways through one invocation *)

Section FolderRuns.

Context (w : world) (self : downloader).

(** One invocation, after the directory is made and the listing is read. *)
Lemma download_folder_listed (depth : nat) (remote_folder local_folder base_dir : str)
    (st : state) (items : list (option str)) :
  let made := mkdir_parents (Path local_folder) st in
  let listed := list_directory w self remote_folder made.2 in
  made.1 = Ret () →
  listed.1 = Ret items →
  download_folder w self (S depth) remote_folder local_folder base_dir st =
  match items with
  | [] => (Ret (), listed.2)
  | _ :: items =>
      try_except
        (thread_pool self;;
         futures <- dispatch w self (download_folder w self depth) local_folder base_dir items [];;
         failed_downloads <- join futures [];;
         match failed_downloads with
         | [] => ret ()
         | _ =>
             open_append (ledger_path self);;
             write_lines (ledger_path self) failed_downloads;;
             log ERROR (MsgFailedDownloads (length failed_downloads) failed_downloads)
         end)
        (λ _, true)
        (λ e, log ERROR (MsgFolderError e);; raise e) listed.2
  end.
Proof.
  intros made listed Hmk Hls. subst listed made.
  cbn [download_folder]. unfold download_folder_body, try_except.
  unfold bind at 1.
  destruct (mkdir_parents _ st) as [r1 st1]. cbn [fst snd] in *. subst r1.
  unfold bind at 1.
  destruct (list_directory _ _ _ st1) as [r2 st2]. cbn [fst snd] in *. subst r2.
  by destruct items.
Qed.

(** An entry outside the base directory is passed over. *)
Lemma dispatch_out_of_scope rec (local_folder base_dir : str) (items : list (option str))
    (futures : list (result bool * str)) (st : state) :
  Forall (λ item, ∃ s, item = Some s ∧
            ∀ pre post, s ≠ pre ++ "/"%char :: base_dir ++ post) items →
  dispatch w self rec local_folder base_dir items futures st = (Ret futures, st).
Proof.
  induction 1 as [|item items (s & -> & Hs) _ IH]; [done|].
  cbn [dispatch]. unfold bind. rewrite filter_string_run.
  assert (Spec.line_from_first ("/"%char :: base_dir) s = None) as ->; [|done].
  unfold Spec.line_from_first.
  destruct (Spec.suffix_from_first _ s) as [suf|] eqn:Hsuf; [|done].
  apply suffix_from_first_Some in Hsuf as (pre & -> & (t & ->)%startswith_prefix & _).
  by destruct (Hs pre t).
Qed.

(** One step of the loop over the entries: it raises, or it goes on with
    the other entries. *)
Lemma dispatch_cons rec (local_folder base_dir : str) (item : option str)
    (items : list (option str)) (futures : list (result bool * str)) (st : state) :
  (∃ e, (dispatch w self rec local_folder base_dir (item :: items) futures st).1 = Raise e) ∨
  (∃ futures' st',
     dispatch w self rec local_folder base_dir (item :: items) futures st =
     dispatch w self rec local_folder base_dir items futures' st').
Proof.
  cbn [dispatch]. rewrite bind_run.
  destruct (filter_string base_dir item st) as [[[[|c it]|]|e] st1]; cbn beta iota.
  - right. by eexists _, _.
  - destruct (endswith _ _).
    + rewrite bind_run. destruct (rec _ _ _ st1) as [[[]|e] st2]; cbn beta iota.
      * right. by eexists _, _.
      * left. by exists e.
    + rewrite bind_run. destruct (submit_run (download_file w self (c :: it)
        (path_str (joinpath (Path local_folder) (name (Path (c :: it)))))) st1) as (r & -> & _).
      cbn beta iota. right. by eexists _, _.
  - right. by eexists _, _.
  - left. by exists e.
Qed.

(** An entry on which the loop always raises makes the whole loop raise,
    wherever the entry is. *)
Lemma dispatch_raises rec (local_folder base_dir : str) (item : option str)
    (items : list (option str)) :
  item ∈ items →
  (∀ rest futures, always_raises
     (dispatch w self rec local_folder base_dir (item :: rest) futures)) →
  ∀ futures, always_raises (dispatch w self rec local_folder base_dir items futures).
Proof.
  intros Hin Hitem. induction items as [|i items IH]; intros futures st.
  - by apply elem_of_nil in Hin.
  - destruct (decide (i = item)) as [->|Hne]; [apply Hitem|].
    apply elem_of_cons in Hin as [->|Hin]; [done|].
    destruct (dispatch_cons rec local_folder base_dir i items futures st)
      as [He|(futures' & st' & ->)]; [done|].
    by apply IH.
Qed.

Lemma dispatch_none rec (local_folder base_dir : str) (rest : list (option str))
    (futures : list (result bool * str)) (st : state) :
  dispatch w self rec local_folder base_dir (None :: rest) futures st = (Raise TypeError, st).
Proof.
  cbn [dispatch]. unfold bind, filter_string, try_except, raise.
  by rewrite ReFacts.compile_filter_pattern.
Qed.

(** The handler of [download_folder] logs and raises again. *)
Lemma reraise_run {A} (m : M A) (st : state) (e : exn) :
  (m st).1 = Raise e →
  try_except m (λ _, true) (λ e, log ERROR (MsgFolderError e);; raise e) st =
    (Raise e, add (m st).2 (EvLog ERROR (MsgFolderError e))).
Proof.
  unfold try_except. destruct (m st) as [[a|e'] st']; cbn [fst snd]; [done|].
  by intros [= ->].
Qed.

Lemma reraise_raises {A} (m : M A) (st : state) :
  (∃ e, (m st).1 = Raise e) →
  ∃ e, (try_except m (λ _, true) (λ e, log ERROR (MsgFolderError e);; raise e) st).1 = Raise e.
Proof. intros [e He]. exists e. by rewrite (reraise_run m st e He). Qed.

(** [list_directory], case by case. *)
Lemma list_directory_run (remote_folder : str) (st : state) :
  list_directory w self remote_folder st =
  let url := base_url self ++ remote_folder in
  let st1 := add st (EvRequest PROPFIND url) in
  match serve w PROPFIND url with
  | NoReply cause =>
      (Raise (RequestException cause),
       add st1 (EvLog ERROR (MsgListFailed remote_folder (RequestException cause))))
  | Reply resp =>
      if (400 <=? status_code resp) && (status_code resp <? 600)
      then (Raise (HTTPError (status_code resp)),
            add st1 (EvLog ERROR (MsgListFailed remote_folder (HTTPError (status_code resp)))))
      else if status_code resp =? 207
           then match hrefs resp with
                | Some l => (Ret l, st1)
                | None => (Raise ParseError, st1)
                end
           else (Ret [], st1)
  end.
Proof.
  unfold list_directory, try_except, request, raise_for_status, log.
  unfold emit, bind, ret, raise, add. cbn beta iota zeta delta [st_fs st_trace fst snd].
  destruct (serve w PROPFIND (base_url self ++ remote_folder)) as [cause|resp];
    cbn beta iota zeta delta [st_fs st_trace fst snd is_request_exception]; [done|].
  destruct (_ && _); cbn beta iota zeta delta [st_fs st_trace fst snd is_request_exception];
    [done|].
  destruct (_ =? _); [|done]. by destruct (hrefs resp).
Qed.

Lemma mkdir_parents_run (p : path) (st : state) :
  mkdir_parents p st =
  ((mkdir_chain (st_fs st) (chain p)).1,
   State (mkdir_chain (st_fs st) (chain p)).2
     (st_trace st ++ [(EvFs OpMkdir p, (mkdir_chain (st_fs st) (chain p)).2)])).
Proof. unfold mkdir_parents, fs_call. by destruct (mkdir_chain _ _). Qed.

End FolderRuns.

(** X11. A listing that gives nothing to do.  When the reply to PROPFIND is
    no error but not a 207 either, or lists nothing, or lists one entry
    only (the folder itself), the invocation returns normally after the
    [mkdir] and the one request: nothing is fetched, no ledger is written,
    nothing is logged. *)
Theorem download_folder_nothing_listed (w : world) (self : downloader) (depth : nat)
    (remote_folder local_folder base_dir : str) (st : state) (resp : response) (fs1 : fsT) :
  let url := base_url self ++ remote_folder in
  mkdir_chain (st_fs st) (chain (Path local_folder)) = (Ret (), fs1) →
  serve w PROPFIND url = Reply resp →
  (400 <=? status_code resp) && (status_code resp <? 600) = false →
  status_code resp ≠ 207 ∨ hrefs resp = Some [] ∨
    (0 < slurm_cpus self ∧ ∃ x, hrefs resp = Some [x]) →
  download_folder w self (S depth) remote_folder local_folder base_dir st =
    (Ret (),
     State fs1 (st_trace st ++
                snaps fs1 [EvFs OpMkdir (Path local_folder); EvRequest PROPFIND url])).
Proof.
  intros url Hmk Hserve Hstatus Hcase. subst url.
  pose proof (mkdir_parents_run (Path local_folder) st) as Hmade. rewrite Hmk in Hmade.
  cbn [fst snd] in Hmade.
  pose proof (list_directory_run w self remote_folder
                (mkdir_parents (Path local_folder) st).2) as Hlist.
  rewrite Hmade in Hlist. cbn zeta in Hlist. rewrite Hserve, Hstatus in Hlist.
  unfold add in Hlist. cbn [snd st_fs st_trace] in Hlist.
  assert (∀ items st2,
            list_directory w self remote_folder (mkdir_parents (Path local_folder) st).2
              = (Ret items, st2) →
            download_folder w self (S depth) remote_folder local_folder base_dir st =
            match items with
            | [] => (Ret (), st2)
            | _ => download_folder w self (S depth) remote_folder local_folder base_dir st
            end) as Hgo.
  { intros items st2 Hl.
    rewrite (download_folder_listed w self depth remote_folder local_folder base_dir st items);
      [|by rewrite Hmade|by rewrite Hl].
    destruct items; [by rewrite Hl|].
    rewrite <- (download_folder_listed w self depth remote_folder local_folder base_dir st
                  (o :: items)); [done|by rewrite Hmade|by rewrite Hl]. }
  rewrite Hmade in *. cbn [snd] in *.
  destruct Hcase as [H207|[Hnone|[Hcpus [x Hone]]]].
  - apply Z.eqb_neq in H207. rewrite H207 in Hlist.
    rewrite (Hgo _ _ Hlist). unfold snaps. cbn [map]. by rewrite <- app_assoc.
  - rewrite Hnone in Hlist. destruct (_ =? _);
      rewrite (Hgo _ _ Hlist); unfold snaps; cbn [map]; by rewrite <- app_assoc.
  - rewrite Hone in Hlist. destruct (status_code resp =? 207) eqn:H207.
    + rewrite (download_folder_listed w self depth remote_folder local_folder base_dir st [x]);
        [|by rewrite Hmade|by rewrite Hmade; cbn [snd]; rewrite Hlist].
      rewrite Hmade. cbn [snd]. rewrite Hlist. cbn [snd].
      unfold try_except, thread_pool. rewrite bind_run.
      apply Z.leb_gt in Hcpus. rewrite Hcpus. unfold ret at 1. cbn [dispatch].
      rewrite bind_run. unfold ret at 1. rewrite bind_run. cbn [join]. unfold ret.
      unfold snaps. cbn [map]. by rewrite <- app_assoc.
    + rewrite (Hgo _ _ Hlist). unfold snaps. cbn [map]. by rewrite <- app_assoc.
Qed.

Lemma download_folder_nothing_listed_witness :
  download_folder (world_status 200) the_downloader 1 (lit "/data/") (lit "out") (lit "data")
    (State ∅ []) =
  (Ret (),
   State (mkdir_chain ∅ (chain (Path (lit "out")))).2
     ([] ++ snaps (mkdir_chain ∅ (chain (Path (lit "out")))).2
              [EvFs OpMkdir (Path (lit "out"));
               EvRequest PROPFIND (lit "http://host/data/")])).
Proof.
  apply (download_folder_nothing_listed (world_status 200) the_downloader 0
           (lit "/data/") (lit "out") (lit "data") (State ∅ [])
           (Response 200 None None [] None)).
  - reflexivity.
  - reflexivity.
  - reflexivity.
  - left. vm_compute. discriminate.
Defined.

(** X12. A listing that fails.  The local folder is made before the
    listing is asked for, so it stays behind; the error is logged twice,
    by [list_directory] and by [download_folder], and raised to the
    caller. *)
Theorem download_folder_listing_fails (w : world) (self : downloader) (depth : nat)
    (remote_folder local_folder base_dir : str) (st : state) (fs1 : fsT) (e : exn) :
  let url := base_url self ++ remote_folder in
  mkdir_chain (st_fs st) (chain (Path local_folder)) = (Ret (), fs1) →
  match serve w PROPFIND url with
  | NoReply cause => e = RequestException cause
  | Reply resp =>
      (400 <=? status_code resp) && (status_code resp <? 600) = true ∧
      e = HTTPError (status_code resp)
  end →
  download_folder w self (S depth) remote_folder local_folder base_dir st =
    (Raise e,
     State fs1 (st_trace st ++
                snaps fs1 [EvFs OpMkdir (Path local_folder); EvRequest PROPFIND url;
                           EvLog ERROR (MsgListFailed remote_folder e);
                           EvLog ERROR (MsgFolderError e)])).
Proof.
  intros url Hmk Hserve. subst url.
  cbn [download_folder]. unfold download_folder_body, try_except.
  rewrite bind_run, mkdir_parents_run, Hmk. cbn [fst snd].
  rewrite bind_run, list_directory_run. cbn zeta.
  destruct (serve w PROPFIND _) as [cause|resp].
  - subst e. unfold bind, log, emit, raise, add, snaps.
    cbn [st_fs st_trace map]. by rewrite <- !app_assoc.
  - destruct Hserve as [-> ->]. unfold bind, log, emit, raise, add, snaps.
    cbn [st_fs st_trace map]. by rewrite <- !app_assoc.
Qed.

Lemma download_folder_listing_fails_witness :
  download_folder world_down the_downloader 1 (lit "/data/") (lit "out") (lit "data")
    (State ∅ []) =
  (Raise (RequestException (lit "connection refused")),
   State (mkdir_chain ∅ (chain (Path (lit "out")))).2
     ([] ++ snaps (mkdir_chain ∅ (chain (Path (lit "out")))).2
              [EvFs OpMkdir (Path (lit "out"));
               EvRequest PROPFIND (lit "http://host/data/");
               EvLog ERROR (MsgListFailed (lit "/data/")
                              (RequestException (lit "connection refused")));
               EvLog ERROR (MsgFolderError (RequestException (lit "connection refused")))])).
Proof.
  apply (download_folder_listing_fails world_down the_downloader 0
           (lit "/data/") (lit "out") (lit "data") (State ∅ [])); reflexivity.
Defined.

(** X13. A worker count that is not positive.  The thread pool cannot be
    created: once the directory is made and the listing holds an entry,
    the invocation raises a [ValueError] before any entry is looked at; no
    transfer is started and no ledger is written. *)
Theorem download_folder_no_workers (w : world) (self : downloader) (depth : nat)
    (remote_folder local_folder base_dir : str) (st : state)
    (x : option str) (items : list (option str)) :
  let made := mkdir_parents (Path local_folder) st in
  let listed := list_directory w self remote_folder made.2 in
  let e := ValueError (lit "max_workers must be greater than 0") in
  slurm_cpus self ≤ 0 →
  made.1 = Ret () →
  listed.1 = Ret (x :: items) →
  download_folder w self (S depth) remote_folder local_folder base_dir st =
    (Raise e, add listed.2 (EvLog ERROR (MsgFolderError e))).
Proof.
  intros made listed e Hcpus Hmk Hls.
  rewrite (download_folder_listed w self depth remote_folder local_folder base_dir st
             (x :: items) Hmk Hls).
  fold made listed. apply Z.leb_le in Hcpus.
  rewrite (reraise_run _ _ e); rewrite bind_run; unfold thread_pool; by rewrite Hcpus.
Qed.

Example init_accepts_zero_workers :
  (init world_zero_cpus (Some (lit "http://host")) (Some (lit "u")) (Some (lit "p"))
     (Some 8) true (State ∅ [])).1 = Ret zero_workers.
Proof. vm_compute. reflexivity. Qed.

Lemma download_folder_no_workers_witness :
  (download_folder world_zero_cpus zero_workers 1 (lit "/data/") (lit "out") (lit "data")
     (State ∅ [])).1
  = Raise (ValueError (lit "max_workers must be greater than 0")).
Proof.
  rewrite (download_folder_no_workers world_zero_cpus zero_workers 0
             (lit "/data/") (lit "out") (lit "data") (State ∅ [])
             (Some (lit "/data/")) [Some (lit "/data/a.txt"); Some (lit "/data/b.txt")]).
  - reflexivity.
  - vm_compute. discriminate.
  - vm_compute. reflexivity.
  - vm_compute. reflexivity.
Defined.

(** X14. A base directory that occurs in no entry.  Every entry is passed
    over: the invocation returns normally with nothing fetched, nothing
    recorded in the ledger and nothing logged. *)
Theorem download_folder_out_of_scope (w : world) (self : downloader) (depth : nat)
    (remote_folder local_folder base_dir : str) (st : state)
    (x : option str) (items : list (option str)) :
  let made := mkdir_parents (Path local_folder) st in
  let listed := list_directory w self remote_folder made.2 in
  0 < slurm_cpus self →
  made.1 = Ret () →
  listed.1 = Ret (x :: items) →
  Forall (λ item, ∃ s, item = Some s ∧
            ∀ pre post, s ≠ pre ++ "/"%char :: base_dir ++ post) items →
  download_folder w self (S depth) remote_folder local_folder base_dir st =
    (Ret (), listed.2).
Proof.
  intros made listed Hcpus Hmk Hls Hitems.
  rewrite (download_folder_listed w self depth remote_folder local_folder base_dir st
             (x :: items) Hmk Hls).
  fold made listed. unfold try_except, thread_pool. rewrite bind_run.
  apply Z.leb_gt in Hcpus. rewrite Hcpus. unfold ret at 1.
  rewrite bind_run, dispatch_out_of_scope by done.
  rewrite bind_run. cbn [join]. by unfold ret.
Qed.

Lemma download_folder_out_of_scope_witness :
  (download_folder world_truncated the_downloader 1 (lit "/data/") (lit "out") (lit "other")
     (State ∅ [])).1 = Ret ().
Proof.
  rewrite (download_folder_out_of_scope world_truncated the_downloader 0
             (lit "/data/") (lit "out") (lit "other") (State ∅ [])
             (Some (lit "/data/")) [Some (lit "/data/a.txt"); Some (lit "/data/b.txt")]).
  - reflexivity.
  - vm_compute. reflexivity.
  - vm_compute. reflexivity.
  - vm_compute. reflexivity.
  - repeat (apply Forall_cons; split); [| |by apply Forall_nil];
      (eexists; split; [reflexivity|]); intros pre post;
      eapply (suffix_from_first_None ("/"%char :: lit "other")); reflexivity.
Defined.

(** X15. An empty [href] element.  One entry that is [None] makes the
    invocation raise, wherever the entry is in the listing; the transfers
    submitted before it have run, but the invocation ends with the log
    record of the error: their failures are not written to the ledger. *)
Theorem download_folder_empty_href (w : world) (self : downloader) (depth : nat)
    (remote_folder local_folder base_dir : str) (st : state)
    (x : option str) (items : list (option str)) :
  let made := mkdir_parents (Path local_folder) st in
  let listed := list_directory w self remote_folder made.2 in
  let dispatched :=
    dispatch w self (download_folder w self depth) local_folder base_dir items [] listed.2 in
  let out := download_folder w self (S depth) remote_folder local_folder base_dir st in
  made.1 = Ret () →
  listed.1 = Ret (x :: items) →
  None ∈ items →
  ∃ e, out.1 = Raise e ∧
    (0 < slurm_cpus self →
     dispatched.1 = Raise e ∧ out.2 = add dispatched.2 (EvLog ERROR (MsgFolderError e))).
Proof.
  intros made listed dispatched out Hmk Hls Hnone. subst out.
  rewrite (download_folder_listed w self depth remote_folder local_folder base_dir st
             (x :: items) Hmk Hls).
  fold made listed.
  destruct (dispatch_raises w self (download_folder w self depth) local_folder base_dir
              None items Hnone) with (futures := @nil (result bool * str)) (st := listed.2)
    as [e He].
  { intros rest futures st1. exists TypeError. by rewrite dispatch_none. }
  destruct (Z.leb_spec (slurm_cpus self) 0) as [Hle|Hgt].
  - exists (ValueError (lit "max_workers must be greater than 0")). split; [|lia].
    apply Z.leb_le in Hle.
    rewrite (reraise_run _ _ (ValueError (lit "max_workers must be greater than 0")));
      [done|].
    rewrite bind_run. unfold thread_pool. by rewrite Hle.
  - exists e. fold dispatched in He.
    assert (∀ k : list (result bool * str) → M (),
              (bind (thread_pool self)
                 (λ _, bind (dispatch w self (download_folder w self depth) local_folder
                               base_dir items []) k)) listed.2 = (Raise e, dispatched.2)) as Hrun.
    { intros k. rewrite bind_run. unfold thread_pool.
      apply Z.leb_gt in Hgt. rewrite Hgt. unfold ret at 1. rewrite bind_run.
      fold dispatched. destruct dispatched as [r st3]. cbn [fst snd] in *. by subst r. }
    rewrite reraise_run with (e := e); rewrite Hrun; by split.
Qed.

Lemma download_folder_empty_href_witness :
  ∃ e, (download_folder world_empty_href the_downloader 1 (lit "/data/") (lit "out")
          (lit "data") (State ∅ [])).1 = Raise e.
Proof.
  destruct (download_folder_empty_href world_empty_href the_downloader 0
              (lit "/data/") (lit "out") (lit "data") (State ∅ [])
              (Some (lit "/data/")) [None]) as (e & He & _).
  - vm_compute. reflexivity.
  - vm_compute. reflexivity.
  - by_compute.
  - by exists e.
Defined.

(** X16. A listing that names the folder itself after its first entry.
    Only the first entry of a listing is dropped; the folder's own entry
    anywhere else is taken for a subfolder and entered again, without
    end: the invocation cannot return normally, at any recursion depth. *)
Theorem download_folder_self_listed (w : world) (self : downloader)
    (base_dir folder : str) (resp : response) (x : option str) (items : list (option str)) :
  endswith ["/"%char] folder = true →
  (∀ st, (filter_string base_dir (Some folder) st).1 = Ret (Some folder)) →
  serve w PROPFIND (base_url self ++ folder) = Reply resp →
  status_code resp = 207 →
  hrefs resp = Some (x :: items) →
  Some folder ∈ items →
  ∀ depth local_folder st,
    ∃ e, (download_folder w self depth folder local_folder base_dir st).1 = Raise e.
Proof.
  intros Hslash Hfilter Hserve H207 Hhrefs Hin.
  assert (Spec.line_from_first ("/"%char :: base_dir) folder = Some folder) as Hline.
  { specialize (Hfilter (State ∅ [])). rewrite filter_string_run in Hfilter.
    by injection Hfilter. }
  induction depth as [|depth IH]; intros local_folder st.
  - by exists RecursionError.
  - cbn [download_folder]. unfold download_folder_body. apply reraise_raises.
    rewrite bind_run, mkdir_parents_run.
    destruct (mkdir_chain _ _) as [[[]|e] fs1]; cbn [fst snd]; [|by exists e].
    rewrite bind_run, list_directory_run. cbn zeta.
    rewrite Hserve, H207, Hhrefs. cbn [andb Z.leb Z.ltb Z.compare Pos.compare Pos.compare_cont
      Z.eqb Pos.eqb].
    rewrite bind_run. unfold thread_pool.
    destruct (slurm_cpus self <=? 0); [by eexists|]. unfold ret at 1.
    rewrite bind_run.
    match goal with |- context [dispatch _ _ _ _ _ _ ?fut ?st1] =>
      destruct (dispatch_raises w self (download_folder w self depth) local_folder base_dir
                  (Some folder) items Hin) with (futures := fut) (st := st1) as [e He]
    end.
    + intros rest futures st1. cbn [dispatch]. rewrite bind_run, filter_string_run, Hline.
      destruct folder as [|c it]; [done|]. rewrite Hslash, bind_run.
      destruct (IH (path_str (joinpath (Path local_folder)
                                (name (Path (removelast (c :: it)))))) st1) as [e He].
      exists e. destruct (download_folder _ _ _ _ _ _ _) as [[[]|e'] st2];
        cbn [fst] in *; congruence.
    + exists e. destruct (dispatch _ _ _ _ _ _ _ _) as [[fs|e'] st2];
        cbn [fst] in *; congruence.
Qed.

Lemma download_folder_self_listed_witness :
  ∃ e, (download_folder world_loop the_downloader 5 (lit "/data/") (lit "out") (lit "data")
          (State ∅ [])).1 = Raise e.
Proof.
  apply (download_folder_self_listed world_loop the_downloader (lit "data") (lit "/data/")
           (Response 207 None (Some [Some (lit "/data/a.txt"); Some (lit "/data/")]) [] None)
           (Some (lit "/data/a.txt")) [Some (lit "/data/")]).
  - reflexivity.
  - intros st. vm_compute. reflexivity.
  - reflexivity.
  - reflexivity.
  - reflexivity.
  - by_compute.
Defined.

(** ** Events, compositionally *)

Lemma emits_only_ret {A} (P : event → Prop) (a : A) : emits_only P (ret a).
Proof. intros st. exists []. by rewrite app_nil_r. Qed.

Lemma emits_only_raise {A} (P : event → Prop) (e : exn) : emits_only P (@raise A e).
Proof. intros st. exists []. by rewrite app_nil_r. Qed.

Lemma emits_only_lift {A} (P : event → Prop) (r : result A) : emits_only P (lift r).
Proof. intros st. exists []. by rewrite app_nil_r. Qed.

Lemma emits_only_emit (P : event → Prop) (e : event) : P e → emits_only P (emit e).
Proof. intros He st. exists [(e, st_fs st)]. split; [done|]. by apply Forall_singleton. Qed.

Lemma emits_only_fs_call {A} (P : event → Prop) (op : fs_op) (p : path)
    (f : fsT → result A * fsT) :
  P (EvFs op p) → emits_only P (fs_call op p f).
Proof.
  intros He st. unfold fs_call. destruct (f (st_fs st)) as [r fs'].
  exists [(EvFs op p, fs')]. split; [done|]. by apply Forall_singleton.
Qed.

Lemma emits_only_bind {A B} (P : event → Prop) (m : M A) (k : A → M B) :
  emits_only P m → (∀ a, emits_only P (k a)) → emits_only P (bind m k).
Proof.
  intros Hm Hk st. unfold bind. destruct (Hm st) as (tw & Htw & HP).
  destruct (m st) as [[a|e] st1]; cbn [snd] in *.
  - destruct (Hk a st1) as (tw' & Htw' & HP'). exists (tw ++ tw').
    split; [by rewrite Htw', Htw, app_assoc|by apply Forall_app].
  - by exists tw.
Qed.

Lemma emits_only_try_except {A} (P : event → Prop) (m : M A) c (h : exn → M A) :
  emits_only P m → (∀ e, emits_only P (h e)) → emits_only P (try_except m c h).
Proof.
  intros Hm Hh st. unfold try_except. destruct (Hm st) as (tw & Htw & HP).
  destruct (m st) as [[a|e] st1]; cbn [snd] in *; [by exists tw|].
  destruct (c e); [|by exists tw].
  destruct (Hh e st1) as (tw' & Htw' & HP'). exists (tw ++ tw').
  split; [by rewrite Htw', Htw, app_assoc|by apply Forall_app].
Qed.

Lemma progress_ok_other (local_path : str) (e : event) :
  (∀ l p d n, e ≠ EvLog l (MsgProgress p d n)) → progress_ok local_path e.
Proof. intros He l p d n ->. by destruct (He l p d n). Qed.

Lemma write_chunks_progress (local_path : str) (temp : path) (file_size downloaded : Z)
    (cs : list (list byte)) :
  0 ≤ downloaded →
  emits_only (progress_ok local_path) (write_chunks local_path temp file_size downloaded cs).
Proof.
  revert downloaded; induction cs as [|chunk cs IH]; intros downloaded Hd.
  - apply emits_only_ret.
  - cbn [write_chunks]. apply emits_only_bind.
    { apply emits_only_emit. by apply progress_ok_other. }
    intros _. destruct chunk as [|b chunk]; [by apply IH|].
    apply emits_only_bind.
    { apply emits_only_fs_call. by apply progress_ok_other. }
    intros _.
    assert (0 < downloaded + Z.of_nat (length (b :: chunk))) as Hpos by (simpl; lia).
    apply emits_only_bind; [|intros _; apply IH; lia].
    destruct (file_size >? 100 * 1024 * 1024) eqn:Hsize; cbn [andb];
      [|apply emits_only_ret].
    destruct (_ =? 0) eqn:Hmod; [|apply emits_only_ret].
    apply emits_only_emit. intros l p d n [= <- <- <- <-].
    apply Z.eqb_eq in Hmod. split_and!; [done|done|lia|done|done].
Qed.

(** X17. Progress records.  [download_file] writes a progress record only
    for a file of more than 100 MiB, and only at a moment when the number
    of bytes received so far is an exact multiple of 50 MiB. *)
Theorem download_file_progress (w : world) (self : downloader)
    (remote_path local_path : str) (st : state) :
  ∃ tw, st_trace (download_file w self remote_path local_path st).2 = st_trace st ++ tw ∧
    Forall (λ x, ∀ l p downloaded file_size,
              x.1 = EvLog l (MsgProgress p downloaded file_size) →
              l = INFO ∧ p = local_path ∧
              100 * 1024 * 1024 < file_size ∧ 0 < downloaded ∧
              downloaded mod (50 * 1024 * 1024) = 0) tw.
Proof.
  revert st. change (emits_only (progress_ok local_path)
                       (download_file w self remote_path local_path)).
  assert (∀ e, (∀ l p d n, e ≠ EvLog l (MsgProgress p d n)) →
               emits_only (progress_ok local_path) (emit e)) as Hemit.
  { intros e He. apply emits_only_emit. by apply progress_ok_other. }
  assert (∀ A (op : fs_op) (p : path) (f : fsT → result A * fsT),
            emits_only (progress_ok local_path) (fs_call op p f)) as Hfs.
  { intros A op p f. apply emits_only_fs_call. by apply progress_ok_other. }
  unfold download_file. apply emits_only_try_except.
  - unfold download_file_try.
    apply emits_only_bind.
    { unfold request. apply emits_only_bind; [by apply Hemit|]. intros _.
      destruct (serve _ _ _); [apply emits_only_raise|apply emits_only_ret]. }
    intros response. apply emits_only_bind.
    { unfold raise_for_status. destruct (_ && _); [apply emits_only_raise|apply emits_only_ret]. }
    intros _. apply emits_only_bind; [apply emits_only_lift|]. intros file_size.
    apply emits_only_bind; [apply Hfs|]. intros _.
    apply emits_only_bind; [apply Hfs|]. intros present.
    apply emits_only_bind.
    { destruct present; [|apply emits_only_ret].
      apply emits_only_bind; [apply Hfs|]. intros size. apply emits_only_ret. }
    intros [|].
    + apply emits_only_bind; [by apply Hemit|]. intros _. apply emits_only_ret.
    + apply emits_only_bind; [by apply Hemit|]. intros _.
      apply emits_only_bind; [apply Hfs|]. intros _.
      apply emits_only_bind; [by apply write_chunks_progress|]. intros _.
      apply emits_only_bind.
      { destruct (stream_error response); [apply emits_only_raise|apply emits_only_ret]. }
      intros _. apply emits_only_bind; [apply Hfs|]. intros size.
      destruct (negb _); [apply emits_only_raise|].
      apply emits_only_bind; [apply Hfs|]. intros _.
      apply emits_only_bind; [by apply Hemit|]. intros _. apply emits_only_ret.
  - intros e. unfold download_file_except.
    apply emits_only_bind; [by apply Hemit|]. intros _.
    apply emits_only_bind; [apply Hfs|]. intros present.
    apply emits_only_bind; [|intros _; apply emits_only_ret].
    destruct present; [apply Hfs|apply emits_only_ret].
Qed.

(** ** The temporary path *)

Lemma is_slash_false (c : ascii) : c ≠ "/"%char → is_slash c = false.
Proof. intros H. unfold is_slash. by apply bool_decide_eq_false_2. Qed.

Lemma seg_scan_dir_base (dir base : str) :
  dir = [] ∨ (∃ d, dir = d ++ ["/"%char]) →
  Forall (λ c, c ≠ "/"%char) base →
  ∃ segs, ∀ sfx, Forall (λ c, c ≠ "/"%char) sfx →
    seg_scan ([], []) (dir ++ base ++ sfx) = (segs, base ++ sfx).
Proof.
  intros Hdir Hbase.
  assert (∀ sfx, Forall (λ c, c ≠ "/"%char) sfx →
            Forall (λ ch, is_slash ch = false) (base ++ sfx)) as Hns.
  { intros sfx Hsfx. apply Forall_app. split;
      (eapply Forall_impl; [eassumption|]); apply is_slash_false. }
  destruct Hdir as [->|[d ->]].
  - exists []. intros sfx Hsfx. cbn [app].
    by rewrite seg_scan_no_slash by by apply Hns.
  - destruct (seg_scan ([], []) d) as [a c] eqn:Hd.
    exists (a ++ [c]). intros sfx Hsfx.
    rewrite <- !app_assoc, seg_scan_app, Hd. cbn [app].
    change (seg_scan (a, c) ("/"%char :: base ++ sfx))
      with (seg_scan (a ++ [c], []) (base ++ sfx)).
    by rewrite seg_scan_no_slash by by apply Hns.
Qed.

Lemma removelast_snoc {A} (l : list A) (x : A) : removelast (l ++ [x]) = l.
Proof. apply removelast_last. Qed.

(** X18. The temporary file is a sibling of the final file.  For a local
    path whose last component is a proper file name, and a job id without
    a slash, the temporary path has the same parent directory as the final
    path, so the rename stays inside one directory; its name is the file
    name followed by [.<job id>.temp]. *)
Theorem temp_path_sibling (self : downloader) (dir base : str) :
  let local_path := dir ++ base in
  dir = [] ∨ (∃ d, dir = d ++ ["/"%char]) →
  base ≠ [] → base ≠ ["."%char] →
  Forall (λ c, c ≠ "/"%char) base →
  Forall (λ c, c ≠ "/"%char) (job_id self) →
  parent (Path (temp_path_of self local_path)) = parent (Path local_path) ∧
  name (Path local_path) = base ∧
  name (Path (temp_path_of self local_path)) = base ++ "."%char :: job_id self ++ lit ".temp".
Proof.
  intros local_path Hdir Hne Hdot Hbase Hjob. subst local_path.
  destruct (seg_scan_dir_base dir base Hdir Hbase) as [segs Hscan].
  set (sfx := "."%char :: job_id self ++ lit ".temp").
  assert (Forall (λ c, c ≠ "/"%char) sfx) as Hsfx.
  { apply Forall_cons. split; [done|]. apply Forall_app. split; [done|].
    unfold lit. cbn. repeat (apply Forall_cons; split; [done|]). by apply Forall_nil. }
  assert (parts_of (dir ++ base) = filter (λ seg, proper_seg seg) segs ++ [base]) as Hl.
  { unfold parts_of, split_slash.
    pose proof (Hscan [] (Forall_nil_2 _)) as H. rewrite !app_nil_r in H. rewrite H.
    cbn [fst snd]. rewrite filter_app, filter_proper_cons, filter_nil.
    unfold proper_seg. by rewrite !bool_decide_eq_false_2. }
  assert (parts_of (temp_path_of self (dir ++ base)) =
          filter (λ seg, proper_seg seg) segs ++ [base ++ sfx]) as Ht.
  { unfold parts_of, split_slash, temp_path_of. fold sfx.
    rewrite <- app_assoc, (Hscan sfx Hsfx).
    cbn [fst snd]. rewrite filter_app, filter_proper_cons, filter_nil.
    rewrite proper_seg_long; [done|]. subst sfx. rewrite length_app, length_cons, length_app. simpl. lia. }
  assert (startswith ["/"%char] (temp_path_of self (dir ++ base)) =
          startswith ["/"%char] (dir ++ base)) as Habs.
  { unfold temp_path_of. destruct (dir ++ base) as [|c s] eqn:Hdb; [|done].
    apply app_eq_nil in Hdb as [_ ->]. done. }
  unfold parent, name, Path. cbn [fst snd]. rewrite Hl, Ht, Habs, !removelast_snoc.
  by rewrite !last_snoc.
Qed.

Lemma temp_path_sibling_witness :
  parent (Path (temp_path_of the_downloader (lit "out/" ++ lit "a.txt")))
    = parent (Path (lit "out/" ++ lit "a.txt")) ∧
  name (Path (lit "out/" ++ lit "a.txt")) = lit "a.txt" ∧
  name (Path (temp_path_of the_downloader (lit "out/" ++ lit "a.txt")))
    = lit "a.txt" ++ "."%char :: job_id the_downloader ++ lit ".temp".
Proof.
  apply (temp_path_sibling the_downloader (lit "out/") (lit "a.txt")).
  - right. by exists (lit "out").
  - discriminate.
  - discriminate.
  - by_compute.
  - by_compute.
Defined.

(** ** The loop over the entries *)


